(** * Schema analyser: size estimator and sharding statistics

    A shallow embedding of [schema_analyzer.py], [size_calculator.py] and
    [statistics_calculator.py].

    Conventions of the embedding:
    - Python [int] is [Z]; a Python [float] is idealised as the real
      number ([R]) that its expression denotes: the IEEE rounding of the
      arithmetic is not modelled, and [round(x, n)] is round half to even
      at [n] decimals of that real number. A float of the code and its
      real number can differ in the last bits, and so can their roundings
      at a decimal tie; the statements about floats are about signs and
      zeros, and about values that the floats represent exactly;
    - [int / int] raises [OverflowError] when the quotient is out of the
      range of a float; this is modelled where the operands are not
      bounded by the code itself;
    - a [dict] is a [gmap]; iteration over a dict is a fold over the map;
    - a raised exception is the left injection of a sum. *)

From Stdlib Require Import Reals Lra ZArith.
From stdpp Require Import gmap strings list fin_maps.

Local Open Scope Z_scope.

(** ** Scalar Python values

    The scalars that occur as shard-key values and as entries of an
    [items] descriptor: integers and strings. *)

Inductive pyval :=
| PInt (z : Z)
| PStr (s : string).

#[global] Instance pyval_eq_dec : EqDecision pyval.
Proof. solve_decision. Defined.

#[global] Instance pyval_countable : Countable pyval.
Proof.
  refine (inj_countable'
            (λ v, match v with PInt z => inl z | PStr s => inr s end)
            (λ x, match x with inl z => PInt z | inr s => PStr s end) _).
  by intros [].
Defined.

#[global] Instance pyval_inhabited : Inhabited pyval := populate (PInt 0).

(** ** schema_analyzer.py *)

(** [Field]: the [properties] dict is kept as the integer-valued
    constraints that the size estimator reads ([minLength], [maxLength],
    ...); the [items] entry is the attribute [Field.items], a dict of
    its own or [None]. *)
Record Field := {
  f_name : string;
  f_type : pyval;
  f_properties : gmap string Z;
  is_array : bool;
  is_object : bool;
  f_items : option (gmap string pyval)
}.

(** [Field.__init__] *)
Definition new_Field (name : string) (field_type : pyval)
    (properties : gmap string Z) (items : option (gmap string pyval)) : Field :=
  {| f_name := name;
     f_type := field_type;
     f_properties := properties;
     is_array := bool_decide (field_type = PStr "array");
     is_object := bool_decide (field_type = PStr "object");
     f_items := items |}.

Record Collection := {
  c_name : string;
  fields : gmap string Field;
  document_count : Z
}.

(** [Collection.add_documents] *)
Definition add_documents (count : Z) (c : Collection) : Collection :=
  {| c_name := c_name c; fields := fields c; document_count := count |}.

(** ** size_calculator.py *)

Module SizeCalculator.

(** The class attribute [TYPE_SIZES]. *)
Definition TYPE_SIZES : gmap string Z :=
  <["string" := 50]> (<["number" := 8]> (<["integer" := 4]>
  (<["boolean" := 1]> (<["array" := 16]> (<["object" := 24]>
  (<["null" := 0]> ∅)))))).

(** [TYPE_SIZES.get(field_type, 50)]: a key that is not a string is not
    in the table. *)
Definition TYPE_SIZES_get (field_type : pyval) : Z :=
  match field_type with
  | PStr t => default 50 (TYPE_SIZES !! t)
  | PInt _ => 50
  end.

(** [get_type_size(field_type, properties=None)] *)
Definition get_type_size (field_type : pyval)
    (properties : option (gmap string Z)) : Z :=
  let properties := default ∅ properties in
  let base_size := TYPE_SIZES_get field_type in
  if bool_decide (field_type = PStr "string") then
    match properties !! "maxLength" with
    | Some n => n
    | None =>
        match properties !! "minLength" with
        | Some n => n
        | None => base_size
        end
    end
  else base_size.

(** Truth value of [field.items]: [None] and the empty dict are false. *)
Definition items_truthy (items : option (gmap string pyval)) : bool :=
  match items with
  | None => false
  | Some d => negb (bool_decide (d = ∅))
  end.

(** The body of the loop of [calculate_document_size], up to the
    accumulation: the value of [field_size] for one field. *)
Definition field_size (field : Field) : Z :=
  let field_size := get_type_size (f_type field) (Some (f_properties field)) in
  let field_size :=
    if is_array field && items_truthy (f_items field) then
      let item_type :=
        default (PStr "object") (default ∅ (f_items field) !! "type") in
      let item_size := get_type_size item_type None in
      item_size * 5 + 16
    else field_size in
  let field_size := if is_object field then 24 else field_size in
  field_size.

(** [calculate_document_size(collection)] *)
Definition calculate_document_size (collection : Collection) : Z :=
  map_fold (λ _ field total_size, total_size + (field_size field + 8))
           24 (fields collection).

End SizeCalculator.

(** Sum of a list of integers. *)
Definition sum_Z (l : list Z) : Z := foldr Z.add 0 l.

(** The schema [{_id: string, name: string with maxLength 10}]. *)
Definition two_field_schema : Collection :=
  {| c_name := "users";
     fields :=
       <["_id" := new_Field "_id" (PStr "string") ∅ None]>
       (<["name" := new_Field "name" (PStr "string") {["maxLength" := 10]} None]> ∅);
     document_count := 0 |}.


(** ** statistics_calculator.py *)

(** Exceptions raised by the modelled code. *)
Inductive exn :=
| ValueError (msg : string)
| ZeroDivisionError.

(** *** Calls of the key-value generator

    [analyze_sharding] calls the generator it is given; the calls are
    recorded, in order, in a log of the indices passed to it. *)
Definition Calls (A : Type) : Type := list Z → A * list Z.

Definition ret {A} (a : A) : Calls A := λ log, (a, log).

Definition bind {A B} (m : Calls A) (k : A → Calls B) : Calls B :=
  λ log, let '(a, log') := m log in k a log'.

Notation "'let*' x := m 'in' k" := (bind m (λ x, k))
  (at level 10, x name, m at level 100, k at level 200, only parsing).

(** One call [generator(i)]. *)
Definition call (generator : Z → pyval) (i : Z) : Calls pyval :=
  λ log, (generator i, log ++ [i]).

(** [[f(i) for i in l]] *)
Fixpoint comprehension {A} (f : Z → Calls A) (l : list Z) : Calls (list A) :=
  match l with
  | [] => ret []
  | i :: l' =>
      let* x := f i in
      let* xs := comprehension f l' in
      ret (x :: xs)
  end.

(** Run a computation from an empty log. *)
Definition run {A} (m : Calls A) : A * list Z := m [].

(** [range(n)] *)
Definition range (n : Z) : list Z := seqZ 0 n.

(** [a or b] on an optional integer: [None] and [0] are false. *)
Definition int_or (a : option Z) (b : Z) : Z :=
  match a with
  | Some n => if bool_decide (n = 0) then b else n
  | None => b
  end.

(** *** class ShardingStatistics *)

Record ShardingStatistics := {
  collection_name : string;
  sharding_key : string;
  distribution : gmap pyval Z;
  total_documents : Z
}.

(** [ShardingStatistics.__init__] *)
Definition new_ShardingStatistics (collection_name sharding_key : string)
    : ShardingStatistics :=
  {| collection_name := collection_name;
     sharding_key := sharding_key;
     distribution := ∅;
     total_documents := 0 |}.

(** [add_document]: [distribution] is a [defaultdict(int)], so a missing
    key reads as [0]. *)
Definition add_document (key_value : pyval) (self : ShardingStatistics)
    : ShardingStatistics :=
  {| collection_name := collection_name self;
     sharding_key := sharding_key self;
     distribution :=
       <[key_value := default 0 (distribution self !! key_value) + 1]>
         (distribution self);
     total_documents := total_documents self + 1 |}.

(** [add_documents_batch] *)
Definition add_documents_batch (key_values : list pyval)
    (self : ShardingStatistics) : ShardingStatistics :=
  foldl (λ self key_value, add_document key_value self) self key_values.

(** [list(self.distribution.values())] *)
Definition values (self : ShardingStatistics) : list Z :=
  (map_to_list (distribution self)).*2.

(** [len(self.distribution)] *)
Definition unique_shards (self : ShardingStatistics) : Z :=
  Z.of_nat (size (distribution self)).

Definition list_min (l : list Z) : Z :=
  match l with
  | [] => 0
  | x :: l' => foldl Z.min x l'
  end.

Definition list_max (l : list Z) : Z :=
  match l with
  | [] => 0
  | x :: l' => foldl Z.max x l'
  end.

(** [min(values)] and [max(values)]: an empty list raises. *)
Definition py_min (l : list Z) : exn + Z :=
  match l with
  | [] => inl (ValueError "min() arg is an empty sequence")
  | _ => inr (list_min l)
  end.

Definition py_max (l : list Z) : exn + Z :=
  match l with
  | [] => inl (ValueError "max() arg is an empty sequence")
  | _ => inr (list_max l)
  end.

(** Round half to even, to an integer. *)
Definition round_half_even (x : R) : Z :=
  let n := Int_part x in
  let d := (x - IZR n)%R in
  if Rlt_dec d (1 / 2) then n
  else if Rlt_dec (1 / 2) d then n + 1
  else if Z.even n then n else n + 1.

(** [round(x, ndigits)], on the real number that the float denotes:
    round half to even at [ndigits] decimals. *)
Definition py_round (x : R) (ndigits : nat) : R :=
  (IZR (round_half_even (x * 10 ^ ndigits)) / 10 ^ ndigits)%R.

(** The local variables of [get_statistics], before rounding. *)
Definition avg_docs (self : ShardingStatistics) : R :=
  (IZR (total_documents self) / IZR (unique_shards self))%R.

Definition variance (self : ShardingStatistics) : R :=
  (foldl Rplus 0%R
     (map (λ x, ((IZR x - avg_docs self) ^ 2)%R) (values self))
   / IZR (unique_shards self))%R.

Definition std_dev (self : ShardingStatistics) : R := sqrt (variance self).

Definition balance_factor (self : ShardingStatistics) : R :=
  if Rlt_dec 0 (avg_docs self)
  then (IZR (list_max (values self) - list_min (values self))
        / avg_docs self)%R
  else 0%R.

(** The dict returned by [get_statistics]: the short one for an empty
    collection, the full one otherwise. *)
Inductive report :=
| EmptyReport (collection sharding_key : string)
    (total_documents unique_shard_values : Z) (error : string)
| FullReport (collection sharding_key : string)
    (total_documents unique_shard_values : Z)
    (min_documents_per_shard max_documents_per_shard : Z)
    (avg_documents_per_shard std_deviation variance balance_factor : R)
    (distribution : gmap pyval Z).

(** [get_statistics] *)
Definition get_statistics (self : ShardingStatistics) : exn + report :=
  if bool_decide (total_documents self = 0) then
    inr (EmptyReport (collection_name self) (sharding_key self) 0 0
           "No documents in collection")
  else
    match py_min (values self) with
    | inl e => inl e
    | inr min_docs =>
    match py_max (values self) with
    | inl e => inl e
    | inr max_docs =>
        if bool_decide (unique_shards self = 0) then inl ZeroDivisionError
        else
          inr (FullReport (collection_name self) (sharding_key self)
                 (total_documents self) (unique_shards self)
                 min_docs max_docs
                 (py_round (avg_docs self) 2)
                 (py_round (std_dev self) 2)
                 (py_round (variance self) 2)
                 (py_round (balance_factor self) 4)
                 (distribution self))
    end
    end.

(** *** class StatisticsCalculator *)

Module StatisticsCalculator.

(** [analyze_sharding(collection, sharding_key, key_value_generator=None,
    sample_size=None)] *)
Definition analyze_sharding (collection : Collection) (sharding_key : string)
    (key_value_generator : option (Z → pyval)) (sample_size : option Z)
    : Calls (exn + ShardingStatistics) :=
  let stats := new_ShardingStatistics (c_name collection) sharding_key in
  if bool_decide (fields collection !! sharding_key = None) then
    ret (inl (ValueError
      ("Sharding key '" +:+ sharding_key +:+ "' not found in collection schema")))
  else
    let doc_count := int_or sample_size (document_count collection) in
    match key_value_generator with
    | Some generator =>
        let* key_values := comprehension (call generator) (range doc_count) in
        ret (inr (add_documents_batch key_values stats))
    | None =>
        let shard_count := Z.min 10 (Z.max 1 (doc_count `div` 100)) in
        let shard_values := PInt <$> range shard_count in
        let key_values :=
          (λ i, shard_values !!!
                  Z.to_nat (i `mod` Z.of_nat (length shard_values)))
            <$> range doc_count in
        ret (inr (add_documents_batch key_values stats))
    end.

(** [compare_sharding_strategies(collection, sharding_keys,
    key_generators=None)]: an exception of one analysis ends the loop. *)
Fixpoint compare_loop (collection : Collection)
    (key_generators : gmap string (Z → pyval)) (sharding_keys : list string)
    (results : list report) : Calls (exn + list report) :=
  match sharding_keys with
  | [] => ret (inr results)
  | key :: keys =>
      let generator := key_generators !! key in
      let* r := analyze_sharding collection key generator None in
      match r with
      | inl e => ret (inl e)
      | inr stats =>
          match get_statistics stats with
          | inl e => ret (inl e)
          | inr rep => compare_loop collection key_generators keys (results ++ [rep])
          end
      end
  end.

Definition compare_sharding_strategies (collection : Collection)
    (sharding_keys : list string)
    (key_generators : option (gmap string (Z → pyval)))
    : Calls (exn + list report) :=
  let key_generators := default ∅ key_generators in
  compare_loop collection key_generators sharding_keys [].

End StatisticsCalculator.

(** Sum of the per-key counts of a distribution. *)
Definition sum_counts (d : gmap pyval Z) : Z := sum_Z (map_to_list d).*2.

(** All per-key counts are the same number. *)
Definition identical_counts (d : gmap pyval Z) : Prop :=
  ∀ k1 k2 v1 v2, d !! k1 = Some v1 → d !! k2 = Some v2 → v1 = v2.

(** A collection with one string field [user_id]. *)
Definition users (count : Z) : Collection :=
  {| c_name := "users";
     fields := {["user_id" := new_Field "user_id" (PStr "string") ∅ None]};
     document_count := count |}.


(** A call on a [ShardingStatistics] object that adds documents. *)
Inductive update :=
| AddDocument (key_value : pyval)
| AddDocumentsBatch (key_values : list pyval).

Definition apply_update (self : ShardingStatistics) (u : update)
    : ShardingStatistics :=
  match u with
  | AddDocument key_value => add_document key_value self
  | AddDocumentsBatch key_values => add_documents_batch key_values self
  end.

(** A sequence of such calls on a fresh object. *)
Definition apply_updates (collection_name sharding_key : string)
    (us : list update) : ShardingStatistics :=
  foldl apply_update (new_ShardingStatistics collection_name sharding_key) us.

(** The invariant of a distribution. *)
Definition counts_total (s : ShardingStatistics) : Prop :=
  sum_counts (distribution s) = total_documents s.

(** The number of simulated documents: the value of [doc_count] in
    [analyze_sharding]. *)
Definition resolved_count (collection : Collection) (sample_size : option Z) : Z :=
  int_or sample_size (document_count collection).

(** Number of occurrences of a key value in a list of key values. *)
Fixpoint occurrences (k : pyval) (ks : list pyval) : Z :=
  match ks with
  | [] => 0
  | x :: ks' => (if bool_decide (x = k) then 1 else 0) + occurrences k ks'
  end.

(** 20000 documents with key 0 and 20001 documents with key 1. *)
Definition skewed : ShardingStatistics :=
  add_documents_batch
    (replicate (Z.to_nat 20000) (PInt 0) ++ replicate (Z.to_nat 20001) (PInt 1))
    (new_ShardingStatistics "users" "user_id").

(** Two documents with key 0, two with key 1, two with key 2. *)
Definition balanced : ShardingStatistics :=
  add_documents_batch ((λ i, PInt (i `mod` 3)) <$> range 6)
    (new_ShardingStatistics "users" "user_id").

(** ** schema_analyzer.py: schemas, the database and the analyzer *)

(** The dict under one name of a schema's [properties], in the typed
    view of [Field]: its [type] entry when present, its integer-valued
    entries, and its [items] entry when present. *)
Record field_schema := {
  fs_type : option pyval;
  fs_constraints : gmap string Z;
  fs_items : option (gmap string pyval)
}.

(** A schema dict: its [properties] entry, when present. *)
Record schema := {
  sch_properties : option (gmap string field_schema)
}.

(** [Collection.parse_schema]: one [Field] per entry of [properties];
    a missing [type] reads as ["unknown"]. *)
Definition parse_schema (sch : schema) (fields0 : gmap string Field)
    : gmap string Field :=
  match sch_properties sch with
  | Some properties =>
      map_fold (λ field_name fs fields,
                  let field_type := default (PStr "unknown") (fs_type fs) in
                  <[field_name :=
                      new_Field field_name field_type (fs_constraints fs)
                        (fs_items fs)]> fields)
               fields0 properties
  | None => fields0
  end.

(** [Collection.__init__] *)
Definition new_Collection (name : string) (sch : schema) : Collection :=
  {| c_name := name; fields := parse_schema sch ∅; document_count := 0 |}.

(** [Collection.get_field] *)
Definition get_field (field_name : string) (c : Collection) : option Field :=
  fields c !! field_name.

(** A dict whose iteration order is observed is a list of entries in
    insertion order; assigning to a key that is present keeps its
    place. *)
Fixpoint dict_set {V} (k : string) (v : V) (d : list (string * V))
    : list (string * V) :=
  match d with
  | [] => [(k, v)]
  | (k', v') :: d' =>
      if bool_decide (k' = k) then (k, v) :: d'
      else (k', v') :: dict_set k v d'
  end.

Fixpoint dict_get {V} (k : string) (d : list (string * V)) : option V :=
  match d with
  | [] => None
  | (k', v') :: d' => if bool_decide (k' = k) then Some v' else dict_get k d'
  end.

(** [Database]; its attribute [statistics] is never read or written
    after [__init__] and is left out. *)
Record Database := {
  db_name : string;
  collections : list (string * Collection)
}.

Definition new_Database (name : string) : Database :=
  {| db_name := name; collections := [] |}.

Module Database.

Definition add_collection (collection : Collection) (self : Database)
    : Database :=
  {| db_name := db_name self;
     collections := dict_set (c_name collection) collection (collections self) |}.

Definition get_collection (collection_name : string) (self : Database)
    : option Collection :=
  dict_get collection_name (collections self).

Definition list_collections (self : Database) : list string :=
  (collections self).*1.

End Database.

(** [SchemaAnalyzer]; schemas are given as dicts. *)
Record SchemaAnalyzer := {
  database : Database;
  schemas : list (string * schema)
}.

Definition new_SchemaAnalyzer (name : string) : SchemaAnalyzer :=
  {| database := new_Database name; schemas := [] |}.

Module SchemaAnalyzer.

(** [load_schema]: the new state of the analyzer and the collection
    that is returned. *)
Definition load_schema (collection_name : string) (sch : schema)
    (self : SchemaAnalyzer) : SchemaAnalyzer * Collection :=
  let collection := new_Collection collection_name sch in
  ({| database := Database.add_collection collection (database self);
      schemas := dict_set collection_name sch (schemas self) |},
   collection).

(** [add_documents]: the collection object found under the name is
    updated in place; an unknown name changes nothing. *)
Definition add_documents (collection_name : string) (count : Z)
    (self : SchemaAnalyzer) : SchemaAnalyzer :=
  match Database.get_collection collection_name (database self) with
  | Some collection =>
      {| database :=
           {| db_name := db_name (database self);
              collections :=
                dict_set collection_name (add_documents count collection)
                  (collections (database self)) |};
         schemas := schemas self |}
  | None => self
  end.

Definition get_database (self : SchemaAnalyzer) : Database := database self.

Definition get_collection (collection_name : string) (self : SchemaAnalyzer)
    : option Collection :=
  Database.get_collection collection_name (database self).

Definition list_collections (self : SchemaAnalyzer) : list string :=
  Database.list_collections (database self).

Definition get_schema (collection_name : string) (self : SchemaAnalyzer)
    : option schema :=
  dict_get collection_name (schemas self).

End SchemaAnalyzer.

(** A call on a [SchemaAnalyzer] that changes it. *)
Inductive analyzer_call :=
| LoadSchema (collection_name : string) (sch : schema)
| AddDocuments (collection_name : string) (count : Z).

Definition apply_call (self : SchemaAnalyzer) (c : analyzer_call)
    : SchemaAnalyzer :=
  match c with
  | LoadSchema n sch => (SchemaAnalyzer.load_schema n sch self).1
  | AddDocuments n count => SchemaAnalyzer.add_documents n count self
  end.

(** ** size_calculator.py: collection and database sizes *)

(** The error of [int / int] when the quotient is out of the range of
    a float. *)
Inductive size_error :=
| OverflowError (msg : string).

(** [total_size / (1024 ** 2)] raises when the quotient, rounded to the
    nearest float, would reach 2^1024, that is when its absolute value
    is at least 2^1024 - 2^970. *)
Definition division_overflows (total_size : Z) : bool :=
  bool_decide ((2 ^ 1024 - 2 ^ 970) * 1024 ^ 2 ≤ Z.abs total_size).

(** The dict returned by [calculate_collection_size]. *)
Record collection_info := {
  ci_collection_name : string;
  ci_document_count : Z;
  average_document_size_bytes : Z;
  total_collection_size_bytes : Z;
  total_collection_size_mb : R;
  total_collection_size_gb : R
}.

(** [calculate_collection_size(collection)]: the division for the MB
    entry is evaluated first; when it does not raise, the division for
    the GB entry, whose quotient is smaller, does not raise either. *)
Definition calculate_collection_size (collection : Collection)
    : size_error + collection_info :=
  let doc_size := SizeCalculator.calculate_document_size collection in
  let total_size := doc_size * document_count collection in
  if division_overflows total_size then
    inl (OverflowError "integer division result too large for a float")
  else
    inr {| ci_collection_name := c_name collection;
           ci_document_count := document_count collection;
           average_document_size_bytes := doc_size;
           total_collection_size_bytes := total_size;
           total_collection_size_mb :=
             py_round (IZR total_size / IZR (1024 ^ 2)) 2;
           total_collection_size_gb :=
             py_round (IZR total_size / IZR (1024 ^ 3)) 4 |}.

(** The dict returned by [calculate_database_size]. *)
Record database_info := {
  di_database_name : string;
  collection_count : Z;
  di_collections : list collection_info;
  total_database_size_bytes : Z;
  total_database_size_mb : R;
  total_database_size_gb : R
}.

(** The loop of [calculate_database_size]: the running total and the
    list of collection reports; an exception of
    [calculate_collection_size] ends it. *)
Fixpoint database_size_loop (cs : list (string * Collection))
    (total_size : Z) (collections_info : list collection_info)
    : size_error + Z * list collection_info :=
  match cs with
  | [] => inr (total_size, collections_info)
  | (_, collection) :: cs' =>
      match calculate_collection_size collection with
      | inl e => inl e
      | inr collection_info =>
          database_size_loop cs'
            (total_size + total_collection_size_bytes collection_info)
            (collections_info ++ [collection_info])
      end
  end.

(** [calculate_database_size(database)] *)
Definition calculate_database_size (db : Database)
    : size_error + database_info :=
  match database_size_loop (collections db) 0 [] with
  | inl e => inl e
  | inr (total_size, collections_info) =>
      if division_overflows total_size then
        inl (OverflowError "integer division result too large for a float")
      else
        inr {| di_database_name := db_name db;
               collection_count := Z.of_nat (length (collections db));
               di_collections := collections_info;
               total_database_size_bytes := total_size;
               total_database_size_mb :=
                 py_round (IZR total_size / IZR (1024 ^ 2)) 2;
               total_database_size_gb :=
                 py_round (IZR total_size / IZR (1024 ^ 3)) 4 |}
  end.

(** ** Auxiliary notions for the statements *)

(** Every stored count is at least 1. *)
Definition positive_counts (s : ShardingStatistics) : Prop :=
  ∀ k v, distribution s !! k = Some v → 1 ≤ v.

(** The length constraints that [get_type_size] reads are not negative. *)
Definition lengths_nonneg (f : Field) : Prop :=
  ∀ n, (f_properties f !! "maxLength" = Some n
        ∨ f_properties f !! "minLength" = Some n) → 0 ≤ n.

(** The message of the [ValueError] of [analyze_sharding]. *)
Definition key_not_found (sharding_key : string) : exn :=
  ValueError ("Sharding key '" +:+ sharding_key
              +:+ "' not found in collection schema").

(** A schema with a typed string field, an untyped field and an array. *)
Definition sample_schema : schema :=
  {| sch_properties := Some
       (<["_id" := {| fs_type := Some (PStr "string");
                      fs_constraints := ∅; fs_items := None |}]>
       (<["payload" := {| fs_type := None;
                          fs_constraints := ∅; fs_items := None |}]>
       (<["tags" := {| fs_type := Some (PStr "array");
                       fs_constraints := ∅;
                       fs_items := Some {["type" := PStr "string"]} |}]> ∅))) |}.

(** What stays true of a [SchemaAnalyzer] under [load_schema] and
    [add_documents]. *)
Definition analyzer_consistent (self : SchemaAnalyzer) : Prop :=
  NoDup (SchemaAnalyzer.list_collections self)
  ∧ (schemas self).*1 = SchemaAnalyzer.list_collections self
  ∧ ∀ n c, SchemaAnalyzer.get_collection n self = Some c →
      c_name c = n
      ∧ ∃ sch, SchemaAnalyzer.get_schema n self = Some sch
               ∧ fields c = parse_schema sch ∅.

(** The field that [parse_schema] makes of one entry of [properties]. *)
Definition field_of_schema (field_name : string) (fs : field_schema) : Field :=
  new_Field field_name (default (PStr "unknown") (fs_type fs))
    (fs_constraints fs) (fs_items fs).

(** [collection.fields[field_name] = field] *)
Definition set_field (field_name : string) (field : Field) (c : Collection)
    : Collection :=
  {| c_name := c_name c;
     fields := <[field_name := field]> (fields c);
     document_count := document_count c |}.

(** The bytes of one collection: document size times document count. *)
Definition collection_bytes (c : Collection) : Z :=
  SizeCalculator.calculate_document_size c * document_count c.

(** The bytes of a database: the sum of the bytes of its collections. *)
Definition database_bytes (db : Database) : Z :=
  sum_Z ((λ nc, collection_bytes nc.2) <$> collections db).

(** The report of a collection whose bytes are in the range of the
    division. *)
Definition collection_report (c : Collection) : collection_info :=
  {| ci_collection_name := c_name c;
     ci_document_count := document_count c;
     average_document_size_bytes := SizeCalculator.calculate_document_size c;
     total_collection_size_bytes := collection_bytes c;
     total_collection_size_mb :=
       py_round (IZR (collection_bytes c) / IZR (1024 ^ 2)) 2;
     total_collection_size_gb :=
       py_round (IZR (collection_bytes c) / IZR (1024 ^ 3)) 4 |}.

(** A document count beyond the range of a float. *)
Definition huge_count : Z := 10 ^ 400.

(** * Properties of the size estimator *)

Section SizeEstimator.
Import SizeCalculator.

Lemma TYPE_SIZES_get_unknown (t : string) :
  TYPE_SIZES !! t = None → TYPE_SIZES_get (PStr t) = 50.
Proof. intros Ht. unfold TYPE_SIZES_get. by rewrite Ht. Qed.

Lemma get_type_size_not_string (field_type : pyval) properties :
  field_type ≠ PStr "string" →
  get_type_size field_type properties = TYPE_SIZES_get field_type.
Proof.
  intros Hne. unfold get_type_size.
  by rewrite bool_decide_eq_false_2.
Qed.

(** The size of a string field, by the three cases of the source. *)
Lemma get_type_size_string (properties : gmap string Z) :
  get_type_size (PStr "string") (Some properties) =
  default (default 50 (properties !! "minLength")) (properties !! "maxLength").
Proof.
  unfold get_type_size. simpl.
  destruct (properties !! "maxLength"); [done|].
  by destruct (properties !! "minLength").
Qed.

(** C5. [get_type_size] is a function of the type and the constraints,
    with no raising path (it is a total function to [Z]); for a string,
    [maxLength] is the size when present, else [minLength] when present;
    an integer is 4 bytes whatever its constraints; a type that is not in
    the table is 50 bytes. *)
Theorem get_type_size_cases (t : string) (properties : gmap string Z)
    (popt : option (gmap string Z)) (n : Z) :
  TYPE_SIZES !! t = None →
  properties !! "maxLength" = None →
  get_type_size (PStr "string") (Some (<["maxLength" := n]> properties)) = n
  ∧ get_type_size (PStr "string") (Some (<["minLength" := n]> properties)) = n
  ∧ get_type_size (PStr "integer") popt = 4
  ∧ get_type_size (PStr t) popt = 50.
Proof.
  intros Ht Hmax. split; [|split; [|split]].
  - rewrite get_type_size_string. by rewrite lookup_insert_eq.
  - rewrite get_type_size_string.
    rewrite (lookup_insert_ne _ "minLength" "maxLength") by (intro; discriminate).
    rewrite Hmax. simpl.
    by rewrite lookup_insert_eq.
  - rewrite get_type_size_not_string by (intro; discriminate).
    vm_compute. reflexivity.
  - rewrite get_type_size_not_string.
    + by apply TYPE_SIZES_get_unknown.
    + intros [= ->]. discriminate Ht.
Qed.

Lemma get_type_size_cases_witness :
  get_type_size (PStr "string") (Some (<["maxLength" := 50]> ∅)) = 50
  ∧ get_type_size (PStr "string") (Some (<["minLength" := 50]> ∅)) = 50
  ∧ get_type_size (PStr "integer") (Some ∅) = 4
  ∧ get_type_size (PStr "uuid") (Some ∅) = 50.
Proof.
  apply (get_type_size_cases "uuid" ∅ (Some ∅) 50); reflexivity.
Defined.

Lemma document_size_foldr (l : list (string * Field)) :
  foldr (uncurry (λ (_ : string) field total_size,
                    total_size + (field_size field + 8))) 24 l
  = 24 + sum_Z (map (λ kf, field_size kf.2 + 8) l).
Proof.
  induction l as [|[k f] l IH]; simpl; [done|].
  rewrite IH. unfold sum_Z. simpl. lia.
Qed.

(** C6. The document size is the 24-byte wrapper plus, for every field,
    its size and 8 bytes for its name; for the schema with [_id] (a string
    without length) and [name] (a string with [maxLength] 10) it is 100. *)
Theorem calculate_document_size_sum :
  (∀ collection,
     calculate_document_size collection
     = 24 + sum_Z (map (λ kf, field_size kf.2 + 8)
                       (map_to_list (fields collection))))
  ∧ calculate_document_size two_field_schema = 100.
Proof.
  split.
  - intros c. unfold calculate_document_size.
    rewrite map_fold_foldr. apply document_size_foldr.
  - vm_compute. reflexivity.
Qed.

(** C10, as stated for every descriptor, fails on the empty one: an
    array field whose [items] descriptor is the empty dict keeps the
    16 bytes of the table: the descriptor is tested for truth, and an
    empty dict is false, so the rule for items (here 24 * 5 + 16) is not
    applied. *)
Lemma array_empty_items_counterexample :
  let field := new_Field "tags" (PStr "array") ∅ (Some ∅) in
  field_size field = 16
  ∧ field_size field
    ≠ TYPE_SIZES_get (default (PStr "object") ((∅ : gmap string pyval) !! "type")) * 5 + 16.
Proof. vm_compute. split; [reflexivity | discriminate]. Qed.

(** C10, for a non-empty descriptor. An array field with a non-empty [items] descriptor is
    sized as the table size of the item type times 5 plus 16, whatever
    length constraints the descriptor or the field carries; without a
    [type] entry the item type is [object], which gives 136; an array
    field with no descriptor, or with an empty one, keeps 16. *)
Theorem array_field_size (name : string) (properties : gmap string Z)
    (items : gmap string pyval) :
  items ≠ ∅ →
  field_size (new_Field name (PStr "array") properties (Some items))
  = TYPE_SIZES_get (default (PStr "object") (items !! "type")) * 5 + 16
  ∧ (items !! "type" = None →
     field_size (new_Field name (PStr "array") properties (Some items)) = 136)
  ∧ field_size (new_Field name (PStr "array") properties None) = 16
  ∧ field_size (new_Field name (PStr "array") properties (Some ∅)) = 16.
Proof.
  intros Hne.
  assert (Hsize : field_size (new_Field name (PStr "array") properties (Some items))
          = TYPE_SIZES_get (default (PStr "object") (items !! "type")) * 5 + 16).
  { unfold field_size. simpl.
    rewrite bool_decide_eq_false_2 by done. simpl.
    unfold get_type_size at 1. simpl.
    destruct (bool_decide (default (PStr "object") (items !! "type") = PStr "string")) eqn:E.
    - apply bool_decide_eq_true_1 in E. rewrite E. reflexivity.
    - reflexivity. }
  split; [exact Hsize|]. split; [|split].
  - intros Hty. rewrite Hsize, Hty. reflexivity.
  - reflexivity.
  - reflexivity.
Qed.

Lemma array_field_size_witness :
  field_size (new_Field "tags" (PStr "array") {["maxLength" := 3]}
                (Some {["type" := PStr "string"; "maxLength" := PInt 7]}))
  = 266.
Proof.
  pose proof (array_field_size "tags" {["maxLength" := 3]}
                {["type" := PStr "string"; "maxLength" := PInt 7]}) as H.
  destruct H as [H _].
  - intros Hempty.
    apply (f_equal (λ m : gmap string pyval, m !! "type")) in Hempty.
    vm_compute in Hempty. discriminate Hempty.
  - rewrite H. vm_compute. reflexivity.
Defined.

End SizeEstimator.

(** * Properties of the sharding statistics *)

Section Distribution.

Lemma sum_Z_app (l1 l2 : list Z) : sum_Z (l1 ++ l2) = sum_Z l1 + sum_Z l2.
Proof. unfold sum_Z. induction l1 as [|x l1 IH]; simpl; lia. Qed.

Lemma sum_Z_perm (l1 l2 : list Z) : l1 ≡ₚ l2 → sum_Z l1 = sum_Z l2.
Proof.
  unfold sum_Z. induction 1; simpl; lia.
Qed.

Lemma sum_counts_empty : sum_counts ∅ = 0.
Proof. unfold sum_counts. by rewrite map_to_list_empty. Qed.

Lemma sum_counts_insert_fresh (d : gmap pyval Z) k v :
  d !! k = None → sum_counts (<[k := v]> d) = v + sum_counts d.
Proof.
  intros Hk. unfold sum_counts.
  rewrite (sum_Z_perm _ (v :: (map_to_list d).*2)); [done|].
  by rewrite map_to_list_insert.
Qed.

Lemma sum_counts_delete (d : gmap pyval Z) k v :
  d !! k = Some v → sum_counts d = v + sum_counts (delete k d).
Proof.
  intros Hk. rewrite <- (sum_counts_insert_fresh (delete k d) k v).
  - by rewrite insert_delete_id.
  - apply lookup_delete_eq.
Qed.

Lemma sum_counts_increment (d : gmap pyval Z) k :
  sum_counts (<[k := default 0 (d !! k) + 1]> d) = sum_counts d + 1.
Proof.
  destruct (d !! k) as [v|] eqn:Hk; simpl.
  - rewrite <- insert_delete_eq.
    rewrite sum_counts_insert_fresh by apply lookup_delete_eq.
    rewrite (sum_counts_delete d k v Hk). lia.
  - rewrite sum_counts_insert_fresh by done. lia.
Qed.

Lemma counts_total_new cn sk : counts_total (new_ShardingStatistics cn sk).
Proof. unfold counts_total. simpl. apply sum_counts_empty. Qed.

Lemma counts_total_add_document k s :
  counts_total s → counts_total (add_document k s).
Proof.
  unfold counts_total. simpl. intros <-. apply sum_counts_increment.
Qed.

Lemma counts_total_add_documents_batch ks s :
  counts_total s → counts_total (add_documents_batch ks s).
Proof.
  unfold add_documents_batch. revert s.
  induction ks as [|k ks IH]; intros s Hs; simpl; [done|].
  apply IH. by apply counts_total_add_document.
Qed.

Lemma counts_total_apply_update s u :
  counts_total s → counts_total (apply_update s u).
Proof.
  destruct u; simpl.
  - apply counts_total_add_document.
  - apply counts_total_add_documents_batch.
Qed.

End Distribution.

Section Analysis.
Import StatisticsCalculator.

Lemma comprehension_call (g : Z → pyval) (l log : list Z) :
  comprehension (call g) l log = (g <$> l, log ++ l).
Proof.
  revert log. induction l as [|i l IH]; intros log; simpl.
  - unfold ret. by rewrite app_nil_r.
  - unfold bind, call. rewrite IH. unfold ret.
    by rewrite <- app_assoc.
Qed.

(** With a generator: the generator is called on [range(doc_count)]. *)
Lemma analyze_sharding_generator c key g sample log :
  is_Some (fields c !! key) →
  analyze_sharding c key (Some g) sample log
  = (inr (add_documents_batch (g <$> range (resolved_count c sample))
            (new_ShardingStatistics (c_name c) key)),
     log ++ range (resolved_count c sample)).
Proof.
  intros [f Hf]. unfold analyze_sharding.
  rewrite bool_decide_eq_false_2 by (rewrite Hf; discriminate).
  unfold bind. rewrite comprehension_call. reflexivity.
Qed.

(** Without a generator: document [i] goes to bucket [i mod shard_count]. *)
Lemma shard_values_lookup (b i : Z) :
  0 < b →
  (PInt <$> range b) !!! Z.to_nat (i `mod` Z.of_nat (length (PInt <$> range b)))
  = PInt (i `mod` b).
Proof.
  intros Hb. unfold range.
  rewrite length_fmap, length_seqZ, Z2Nat.id by lia.
  pose proof (Z.mod_pos_bound i b Hb) as Hm.
  apply list_lookup_total_correct.
  rewrite list_lookup_fmap.
  rewrite lookup_seqZ_lt by lia.
  simpl. f_equal. f_equal. lia.
Qed.

Lemma analyze_sharding_default c key sample log :
  is_Some (fields c !! key) →
  analyze_sharding c key None sample log
  = (inr (add_documents_batch
            ((λ i, PInt (i `mod` Z.min 10 (Z.max 1 (resolved_count c sample `div` 100))))
               <$> range (resolved_count c sample))
            (new_ShardingStatistics (c_name c) key)),
     log).
Proof.
  intros [f Hf]. unfold analyze_sharding.
  rewrite bool_decide_eq_false_2 by (rewrite Hf; discriminate).
  unfold ret. f_equal. f_equal. f_equal.
  apply list_fmap_ext. intros _ i _.
  apply shard_values_lookup. lia.
Qed.

(** Whatever the arguments, an analysis that returns, returns an object
    that satisfies the invariant, and its result does not depend on the
    calls logged before it. *)
Lemma analyze_sharding_counts_total c key gen sample log :
  match (analyze_sharding c key gen sample log).1 with
  | inr stats => counts_total stats
  | inl _ => True
  end.
Proof.
  destruct (fields c !! key) as [f|] eqn:Hf.
  - destruct gen as [g|].
    + rewrite analyze_sharding_generator by eauto. simpl.
      apply counts_total_add_documents_batch, counts_total_new.
    + rewrite analyze_sharding_default by eauto. simpl.
      apply counts_total_add_documents_batch, counts_total_new.
  - unfold analyze_sharding. rewrite bool_decide_eq_true_2 by done. done.
Qed.

Lemma analyze_sharding_log c key gen sample log :
  (analyze_sharding c key gen sample log).1
  = (analyze_sharding c key gen sample []).1.
Proof.
  destruct (fields c !! key) as [f|] eqn:Hf.
  - destruct gen as [g|].
    + by rewrite !analyze_sharding_generator by eauto.
    + by rewrite !analyze_sharding_default by eauto.
  - unfold analyze_sharding. by rewrite bool_decide_eq_true_2 by done.
Qed.

(** C1. After any sequence of [add_document] and [add_documents_batch]
    calls on a fresh object, and for the object returned by
    [analyze_sharding], the per-key counts add up to [total_documents]. *)
Theorem distribution_sum_is_total :
  (∀ collection_name sharding_key us,
     let stats := apply_updates collection_name sharding_key us in
     sum_counts (distribution stats) = total_documents stats)
  ∧ (∀ collection sharding_key generator sample_size,
       match (run (analyze_sharding collection sharding_key generator
                     sample_size)).1 with
       | inr stats => sum_counts (distribution stats) = total_documents stats
       | inl _ => True
       end).
Proof.
  split.
  - intros cn sk us. simpl. unfold apply_updates.
    change (counts_total (foldl apply_update (new_ShardingStatistics cn sk) us)).
    generalize (counts_total_new cn sk).
    generalize (new_ShardingStatistics cn sk).
    induction us as [|u us IH]; intros s Hs; simpl; [done|].
    apply IH. by apply counts_total_apply_update.
  - intros c key gen sample. apply analyze_sharding_counts_total.
Qed.

(** C3, at [sample_size = 0]: the supplied sample size is 0, yet the five
    documents of the collection are simulated, and the generator is
    called on 0, 1, 2, 3, 4. ([sample_size or document_count] takes 0 for
    an absent sample size.) *)
Theorem analyze_sharding_sample_size_zero :
  let generator := λ i, PInt (i `mod` 2) in
  ∃ stats,
    run (analyze_sharding (users 5) "user_id" (Some generator) (Some 0))
    = (inr stats, [0; 1; 2; 3; 4])
    ∧ total_documents stats = 5
    ∧ resolved_count (users 5) (Some 0) = 5.
Proof.
  simpl. eexists. split; [|split].
  - vm_compute. reflexivity.
  - reflexivity.
  - reflexivity.
Qed.

(** C7. With a sharding key that is not a field of the collection,
    [analyze_sharding] raises [ValueError] before the generator is called
    once, and returns no statistics object. *)
Theorem analyze_sharding_key_not_found collection sharding_key generator
    sample_size :
  fields collection !! sharding_key = None →
  run (analyze_sharding collection sharding_key generator sample_size)
  = (inl (ValueError ("Sharding key '" +:+ sharding_key
                      +:+ "' not found in collection schema")), []).
Proof.
  intros Hk. unfold run, analyze_sharding.
  by rewrite bool_decide_eq_true_2.
Qed.

Lemma analyze_sharding_key_not_found_witness :
  run (analyze_sharding (users 250) "email" (Some (λ i, PInt i)) (Some 10))
  = (inl (ValueError "Sharding key 'email' not found in collection schema"), []).
Proof.
  apply (analyze_sharding_key_not_found (users 250) "email"). reflexivity.
Defined.

(** C8. With [total_documents = 0], [get_statistics] raises nothing: it
    returns the short dict with [total_documents] 0,
    [unique_shard_values] 0 and the [error] entry. *)
Theorem get_statistics_empty (stats : ShardingStatistics) :
  total_documents stats = 0 →
  get_statistics stats
  = inr (EmptyReport (collection_name stats) (sharding_key stats) 0 0
           "No documents in collection").
Proof.
  intros H0. unfold get_statistics. by rewrite bool_decide_eq_true_2.
Qed.

Lemma get_statistics_empty_witness :
  get_statistics (new_ShardingStatistics "users" "user_id")
  = inr (EmptyReport "users" "user_id" 0 0 "No documents in collection").
Proof.
  apply (get_statistics_empty (new_ShardingStatistics "users" "user_id")).
  reflexivity.
Defined.

Lemma unique_shards_length s : unique_shards s = Z.of_nat (length (values s)).
Proof.
  unfold unique_shards, values.
  by rewrite length_fmap, length_map_to_list.
Qed.

Lemma values_nil_total s : counts_total s → values s = [] → total_documents s = 0.
Proof.
  unfold counts_total, sum_counts, values. intros <- ->. reflexivity.
Qed.

(** On an object that satisfies the invariant [get_statistics] raises
    nothing. *)
Lemma get_statistics_returns s :
  counts_total s → ∃ rep, get_statistics s = inr rep.
Proof.
  intros Hs. unfold get_statistics.
  case_bool_decide as Ht; [eauto|].
  pose proof (unique_shards_length s) as Hu.
  destruct (values s) as [|v vs] eqn:Hv.
  - exfalso. apply Ht. by apply values_nil_total.
  - simpl. rewrite bool_decide_eq_false_2; [eauto|].
    rewrite Hu. simpl. lia.
Qed.

Lemma compare_loop_results c (gens : gmap string (Z → pyval)) keys :
  Forall (λ k, is_Some (fields c !! k)) keys →
  ∀ results log,
  ∃ reps log',
    compare_loop c gens keys results log = (inr (results ++ reps), log')
    ∧ Forall2 (λ k rep, ∃ stats,
                 (run (analyze_sharding c k (gens !! k) None)).1 = inr stats
                 ∧ get_statistics stats = inr rep) keys reps.
Proof.
  induction 1 as [|k keys Hk _ IH]; intros results log; simpl.
  - exists [], log. unfold ret. rewrite app_nil_r. split; [done|constructor].
  - unfold bind.
    pose proof (analyze_sharding_counts_total c k (gens !! k) None log) as Hinv.
    pose proof (analyze_sharding_log c k (gens !! k) None log) as Hlog.
    destruct (analyze_sharding c k (gens !! k) None log) as [r log1] eqn:Hrun.
    simpl in Hinv, Hlog.
    destruct r as [e|stats].
    + exfalso. destruct (gens !! k) as [g|].
      * rewrite analyze_sharding_generator in Hrun by done. discriminate Hrun.
      * rewrite analyze_sharding_default in Hrun by done. discriminate Hrun.
    + destruct (get_statistics_returns stats Hinv) as [rep Hrep].
      rewrite Hrep.
      destruct (IH (results ++ [rep]) log1) as (reps & log' & Hloop & Hall).
      exists (rep :: reps), log'. split.
      * rewrite Hloop. by rewrite <- app_assoc.
      * constructor; [|done]. exists stats. split; [|done].
        unfold run. by rewrite <- Hlog.
Qed.

(** C9. When every key of the list is a field of the collection,
    [compare_sharding_strategies] returns one report per key, in the
    order of the list, and the report at a position is the one that
    [get_statistics] gives for a separate [analyze_sharding] of the key at
    that position, with the generator registered for it and no sample
    size. *)
Theorem compare_sharding_strategies_pointwise collection sharding_keys
    key_generators :
  Forall (λ k, is_Some (fields collection !! k)) sharding_keys →
  ∃ results,
    (run (compare_sharding_strategies collection sharding_keys
            key_generators)).1 = inr results
    ∧ length results = length sharding_keys
    ∧ ∀ i key, sharding_keys !! i = Some key →
        ∃ stats rep,
          (run (analyze_sharding collection key
                  (default ∅ key_generators !! key) None)).1 = inr stats
          ∧ get_statistics stats = inr rep
          ∧ results !! i = Some rep.
Proof.
  intros Hkeys. unfold compare_sharding_strategies, run at 1.
  destruct (compare_loop_results collection (default ∅ key_generators)
              sharding_keys Hkeys [] [])
    as (reps & log' & Hloop & Hall).
  exists reps. rewrite Hloop. simpl. split; [done|]. split.
  - symmetry. by eapply Forall2_length.
  - intros i key Hi.
    destruct (Forall2_lookup_l _ _ _ _ _ Hall Hi) as (rep & Hrep & stats & Hst & Hget).
    eauto.
Qed.

Lemma compare_sharding_strategies_pointwise_witness :
  ∃ results,
    (run (compare_sharding_strategies (add_documents 6 two_field_schema)
            ["name"; "_id"] (Some {["_id" := λ i, PInt (i `mod` 3)]}))).1
    = inr results
    ∧ length results = 2%nat.
Proof.
  destruct (compare_sharding_strategies_pointwise
              (add_documents 6 two_field_schema)
              ["name"; "_id"] (Some {["_id" := λ i, PInt (i `mod` 3)]}))
    as (results & Hrun & Hlen & _).
  - repeat constructor; vm_compute; eauto.
  - exists results. split; [exact Hrun | exact Hlen].
Defined.

(** *** The distribution after a batch, key by key *)

Lemma occurrences_app k ks1 ks2 :
  occurrences k (ks1 ++ ks2) = occurrences k ks1 + occurrences k ks2.
Proof. induction ks1 as [|x ks1 IH]; simpl; lia. Qed.

Lemma occurrences_nonneg k ks : 0 ≤ occurrences k ks.
Proof. induction ks as [|x ks IH]; simpl; [lia|]. case_bool_decide; lia. Qed.

Lemma occurrences_pos k ks : k ∈ ks ↔ 0 < occurrences k ks.
Proof.
  induction ks as [|x ks IH]; simpl.
  - split; [by intros ?%elem_of_nil | lia].
  - pose proof (occurrences_nonneg k ks) as Hn.
    rewrite elem_of_cons, IH. case_bool_decide as Hx.
    + split; [lia | intros _; left; done].
    + split; [intros [->|?]; [done|lia] | intros ?; right; lia].
Qed.

Lemma lookup_add_document k k' s :
  distribution (add_document k' s) !! k
  = if decide (k' = k) then Some (default 0 (distribution s !! k) + 1)
    else distribution s !! k.
Proof.
  simpl. rewrite lookup_insert. by case_decide; simplify_eq.
Qed.

Lemma count_add_documents_batch ks s k :
  default 0 (distribution (add_documents_batch ks s) !! k)
  = default 0 (distribution s !! k) + occurrences k ks.
Proof.
  unfold add_documents_batch. revert s.
  induction ks as [|x ks IH]; intros s; simpl; [lia|].
  rewrite IH, lookup_add_document.
  case_decide as Hx.
  - rewrite bool_decide_eq_true_2 by done. simpl. lia.
  - rewrite bool_decide_eq_false_2 by done. lia.
Qed.

Lemma is_Some_add_documents_batch ks s k :
  is_Some (distribution (add_documents_batch ks s) !! k)
  ↔ is_Some (distribution s !! k) ∨ k ∈ ks.
Proof.
  unfold add_documents_batch. revert s.
  induction ks as [|x ks IH]; intros s; simpl.
  - rewrite elem_of_nil. tauto.
  - rewrite IH, lookup_add_document, elem_of_cons.
    case_decide as Hx.
    + subst. split; [tauto | intros _; left; eauto].
    + split; [tauto | intros [?|[->|?]]; tauto].
Qed.

(** On a fresh object a key is present exactly when it occurs in the
    batch, and its count is its number of occurrences. *)
Lemma lookup_fresh_batch ks cn sk k v :
  distribution (add_documents_batch ks (new_ShardingStatistics cn sk)) !! k
  = Some v →
  v = occurrences k ks ∧ k ∈ ks.
Proof.
  intros Hk.
  pose proof (count_add_documents_batch ks (new_ShardingStatistics cn sk) k) as Hc.
  rewrite Hk in Hc. simpl in Hc. rewrite lookup_empty in Hc. simpl in Hc.
  split; [lia|].
  assert (is_Some (distribution (add_documents_batch ks
            (new_ShardingStatistics cn sk)) !! k)) as Hs by eauto.
  apply is_Some_add_documents_batch in Hs as [Hs|Hs]; [|done].
  simpl in Hs. rewrite lookup_empty in Hs. by destruct Hs.
Qed.

(** *** Round-robin assignment to buckets *)

Lemma div_mod_succ (n b : Z) :
  0 ≤ n → 0 < b →
  (n `mod` b + 1 < b ∧ (n + 1) `div` b = n `div` b
   ∧ (n + 1) `mod` b = n `mod` b + 1)
  ∨ (n `mod` b + 1 = b ∧ (n + 1) `div` b = n `div` b + 1
     ∧ (n + 1) `mod` b = 0).
Proof.
  intros Hn Hb.
  pose proof (Z.div_mod n b ltac:(lia)) as Hdm.
  pose proof (Z.mod_pos_bound n b Hb) as Hm.
  destruct (decide (n `mod` b + 1 < b)) as [Hlt|Hge].
  - left. split; [done|].
    assert (Hq : (n + 1) `div` b = n `div` b).
    { symmetry. apply (Z.div_unique _ _ _ (n `mod` b + 1)); lia. }
    split; [done|].
    symmetry. apply (Z.mod_unique _ _ (n `div` b)); lia.
  - right. split; [lia|].
    assert (Hq : (n + 1) `div` b = n `div` b + 1).
    { symmetry. apply (Z.div_unique _ _ _ 0); lia. }
    split; [done|].
    symmetry. apply (Z.mod_unique _ _ (n `div` b + 1)); lia.
Qed.

(** Among the first [n] indices, bucket [j] receives [n / b] documents,
    and one more when [j < n mod b]. *)
Lemma occurrences_round_robin (b j : Z) (n : nat) :
  0 < b → 0 ≤ j < b →
  occurrences (PInt j) ((λ i, PInt (i `mod` b)) <$> range (Z.of_nat n))
  = Z.of_nat n `div` b
    + (if bool_decide (j < Z.of_nat n `mod` b) then 1 else 0).
Proof.
  intros Hb Hj. unfold range. induction n as [|n IH].
  - simpl. rewrite Z.div_0_l, Z.mod_0_l by lia.
    by rewrite bool_decide_eq_false_2 by lia.
  - replace (Z.of_nat (S n)) with (Z.of_nat n + 1) by lia.
    rewrite seqZ_app by lia. rewrite fmap_app, occurrences_app, IH.
    rewrite (seqZ_cons _ 1), seqZ_nil by lia. simpl.
    rewrite Z.add_0_l.
    assert (Hdec : bool_decide (PInt (Z.of_nat n `mod` b) = PInt j)
                   = bool_decide (Z.of_nat n `mod` b = j)).
    { apply bool_decide_ext. split; [by intros [=] | by intros ->]. }
    rewrite Hdec.
    destruct (div_mod_succ (Z.of_nat n) b) as [(Hr & -> & ->)|(Hr & -> & ->)];
      [lia|lia| |]; repeat case_bool_decide; lia.
Qed.

Lemma shard_count_bounds (n : Z) :
  0 < n →
  let b := Z.min 10 (Z.max 1 (n `div` 100)) in
  0 < b ≤ n ∧ 1 ≤ n `div` b.
Proof.
  intros Hn b.
  assert (Hd : n `div` 100 ≤ n) by (apply Z.div_le_upper_bound; lia).
  assert (Hb : 0 < b ≤ n) by (unfold b; lia).
  split; [done|].
  apply Z.div_le_lower_bound; lia.
Qed.

(** C4. Without a generator and with a positive document count [n], the
    key values are the bucket labels [i mod b] for [i] in [0 .. n-1],
    where [b = min(10, max(1, n // 100))]; the distribution has the [b]
    keys [0 .. b-1] and no other, and two counts differ by at most 1. *)
Theorem analyze_sharding_default_buckets collection sharding_key sample_size :
  is_Some (fields collection !! sharding_key) →
  0 < resolved_count collection sample_size →
  let n := resolved_count collection sample_size in
  let b := Z.min 10 (Z.max 1 (n `div` 100)) in
  ∃ stats,
    run (analyze_sharding collection sharding_key None sample_size)
    = (inr stats, [])
    ∧ stats = add_documents_batch ((λ i, PInt (i `mod` b)) <$> range n)
                (new_ShardingStatistics (c_name collection) sharding_key)
    ∧ (∀ k, is_Some (distribution stats !! k) ↔ ∃ j, k = PInt j ∧ 0 ≤ j < b)
    ∧ unique_shards stats = b
    ∧ (∀ k1 k2 v1 v2,
         distribution stats !! k1 = Some v1 →
         distribution stats !! k2 = Some v2 →
         -1 ≤ v1 - v2 ≤ 1).
Proof.
  intros Hkey Hn n b.
  destruct (shard_count_bounds n Hn) as [Hb Hq]. fold b in Hb, Hq.
  eexists. split; [unfold run; by apply analyze_sharding_default|].
  fold n b. split; [done|].
  set (ks := (λ i, PInt (i `mod` b)) <$> range n).
  set (stats := add_documents_batch ks _).
  assert (Hocc : ∀ j, 0 ≤ j < b →
            occurrences (PInt j) ks
            = n `div` b + (if bool_decide (j < n `mod` b) then 1 else 0)).
  { intros j Hj. unfold ks.
    rewrite <- (Z2Nat.id n) by lia. by apply occurrences_round_robin; lia. }
  assert (Hin : ∀ k, k ∈ ks ↔ ∃ j, k = PInt j ∧ 0 ≤ j < b).
  { intros k. split.
    - unfold ks. intros (i & -> & Hi)%list_elem_of_fmap.
      exists (i `mod` b). split; [done|]. apply Z.mod_pos_bound. lia.
    - intros (j & -> & Hj). apply occurrences_pos. rewrite Hocc by done.
      case_bool_decide; lia. }
  assert (Hdom : ∀ k, is_Some (distribution stats !! k)
                      ↔ ∃ j, k = PInt j ∧ 0 ≤ j < b).
  { intros k. unfold stats. rewrite is_Some_add_documents_batch. simpl.
    rewrite lookup_empty, <- Hin. split; [intros [[? [=]]|?]; done | eauto]. }
  split; [exact Hdom|]. split.
  - unfold unique_shards. rewrite <- size_dom.
    assert (Hset : dom (distribution stats)
                   = list_to_set (PInt <$> seqZ 0 b) :> gset pyval).
    { apply set_eq. intros k. rewrite elem_of_dom, Hdom, elem_of_list_to_set.
      rewrite list_elem_of_fmap. setoid_rewrite elem_of_seqZ.
      split; intros (j & ? & ?); exists j; split; (done || lia). }
    rewrite Hset, size_list_to_set.
    + rewrite length_fmap, length_seqZ. lia.
    + apply NoDup_fmap_2; [intros ?? [=]; done | apply NoDup_seqZ].
  - intros k1 k2 v1 v2 H1 H2.
    apply lookup_fresh_batch in H1 as [-> (j1 & -> & Hj1)%Hin].
    apply lookup_fresh_batch in H2 as [-> (j2 & -> & Hj2)%Hin].
    rewrite !Hocc by done. repeat case_bool_decide; lia.
Qed.

Lemma analyze_sharding_default_buckets_witness :
  ∃ stats,
    run (analyze_sharding (users 250) "user_id" None None) = (inr stats, [])
    ∧ unique_shards stats = 2.
Proof.
  destruct (analyze_sharding_default_buckets (users 250) "user_id" None)
    as (stats & Hrun & _ & _ & Hsize & _).
  - vm_compute. eauto.
  - vm_compute. reflexivity.
  - exists stats. split; [exact Hrun | exact Hsize].
Defined.

End Analysis.

(** * Properties of the derived statistics *)

Section Rounding.
Local Open Scope R_scope.

Lemma Int_part_IZR (z : Z) : Int_part (IZR z) = z.
Proof. symmetry. apply Int_part_spec. lra. Qed.

Lemma round_half_even_IZR (z : Z) : round_half_even (IZR z) = z.
Proof.
  unfold round_half_even. rewrite Int_part_IZR.
  destruct (Rlt_dec (IZR z - IZR z) (1 / 2)) as [_|Hn]; [done|].
  exfalso. apply Hn. lra.
Qed.

Lemma round_half_even_small (x : R) : 0 <= x < 1 / 2 → round_half_even x = 0%Z.
Proof.
  intros Hx. unfold round_half_even.
  assert (Hi : Int_part x = 0%Z) by (symmetry; apply Int_part_spec; lra).
  rewrite Hi.
  destruct (Rlt_dec (x - 0) (1 / 2)) as [_|Hn]; [done|].
  exfalso. apply Hn. lra.
Qed.

Lemma round_half_even_nonneg (x : R) : 0 <= x → (0 ≤ round_half_even x)%Z.
Proof.
  intros Hx.
  assert (Hi : (0 ≤ Int_part x)%Z).
  { destruct (base_Int_part x) as [_ Hup].
    apply Z.lt_succ_r. apply lt_IZR. rewrite succ_IZR. lra. }
  unfold round_half_even.
  destruct (Rlt_dec _ _); [done|].
  destruct (Rlt_dec _ _); [lia|].
  destruct (Z.even _); lia.
Qed.

Lemma pow10_pos (n : nat) : 0 < 10 ^ n.
Proof. apply pow_lt. lra. Qed.

Lemma py_round_0 (n : nat) : py_round 0 n = 0.
Proof.
  unfold py_round. rewrite Rmult_0_l.
  rewrite (round_half_even_IZR 0). unfold Rdiv. apply Rmult_0_l.
Qed.

Lemma py_round_nonneg (x : R) (n : nat) : 0 <= x → 0 <= py_round x n.
Proof.
  intros Hx. unfold py_round.
  pose proof (pow10_pos n) as Hp.
  apply Rmult_le_pos.
  - apply IZR_le. apply round_half_even_nonneg.
    apply Rmult_le_pos; lra.
  - apply Rlt_le, Rinv_0_lt_compat, Hp.
Qed.

End Rounding.

Section Statistics.

Lemma list_min_spec (l : list Z) :
  l ≠ [] → list_min l ∈ l ∧ ∀ x, x ∈ l → list_min l ≤ x.
Proof.
  destruct l as [|a l]; [done|]. intros _. simpl.
  revert a. induction l as [|b l IH]; intros a; simpl.
  - split; [left|]. intros x ->%list_elem_of_singleton. lia.
  - destruct (IH (Z.min a b)) as [Hin Hle]. split.
    + apply elem_of_cons in Hin as [->|Hin].
      * destruct (Z.min_spec a b) as [[_ ->]|[_ ->]]; [left | right; left].
      * right; right; done.
    + intros x Hx.
      assert (Hm : Z.min a b ≤ x ∨ x ∈ l).
      { apply elem_of_cons in Hx as [->|Hx]; [left; lia|].
        apply elem_of_cons in Hx as [->|Hx]; [left; lia | right; done]. }
      destruct Hm as [Hm|Hm].
      * etrans; [apply Hle; left|done].
      * apply Hle. by right.
Qed.

Lemma list_max_spec (l : list Z) :
  l ≠ [] → list_max l ∈ l ∧ ∀ x, x ∈ l → x ≤ list_max l.
Proof.
  destruct l as [|a l]; [done|]. intros _. simpl.
  revert a. induction l as [|b l IH]; intros a; simpl.
  - split; [left|]. intros x ->%list_elem_of_singleton. lia.
  - destruct (IH (Z.max a b)) as [Hin Hle]. split.
    + apply elem_of_cons in Hin as [->|Hin].
      * destruct (Z.max_spec a b) as [[_ ->]|[_ ->]]; [right; left | left].
      * right; right; done.
    + intros x Hx.
      assert (Hm : x ≤ Z.max a b ∨ x ∈ l).
      { apply elem_of_cons in Hx as [->|Hx]; [left; lia|].
        apply elem_of_cons in Hx as [->|Hx]; [left; lia | right; done]. }
      destruct Hm as [Hm|Hm].
      * etrans; [done | apply Hle; left].
      * apply Hle. by right.
Qed.

Lemma elem_of_values s v :
  v ∈ values s ↔ ∃ k, distribution s !! k = Some v.
Proof.
  unfold values. rewrite list_elem_of_fmap. split.
  - intros ([k v'] & -> & Hkv). exists k. by apply elem_of_map_to_list.
  - intros [k Hk]. exists (k, v). split; [done|]. by apply elem_of_map_to_list.
Qed.

(** Identical counts, read on the list of values. *)
Lemma identical_counts_values s :
  identical_counts (distribution s)
  ↔ ∀ v1 v2, v1 ∈ values s → v2 ∈ values s → v1 = v2.
Proof.
  unfold identical_counts. split.
  - intros Hid v1 v2 [k1 H1]%elem_of_values [k2 H2]%elem_of_values. eauto.
  - intros Hid k1 k2 v1 v2 H1 H2. apply Hid; apply elem_of_values; eauto.
Qed.

Lemma sum_Z_constant (l : list Z) (c : Z) :
  (∀ x, x ∈ l → x = c) → sum_Z l = Z.of_nat (length l) * c.
Proof.
  unfold sum_Z. induction l as [|a l IH]; intros Hc; [simpl; lia|].
  cbn [foldr length]. rewrite IH by (intros x Hx; apply Hc; by right).
  rewrite (Hc a) by left. lia.
Qed.

Local Open Scope R_scope.

Lemma foldl_Rplus_shift (l : list R) (a : R) :
  foldl Rplus a l = a + foldl Rplus 0 l.
Proof.
  revert a. induction l as [|x l IH]; intros a; simpl; [lra|].
  rewrite IH, (IH (0 + x)). lra.
Qed.

Lemma squares_sum_nonneg (l : list Z) (a : R) :
  0 <= foldl Rplus 0 (map (λ x, (IZR x - a) ^ 2) l).
Proof.
  induction l as [|x l IH]; cbn [foldl map]; [lra|].
  rewrite foldl_Rplus_shift.
  pose proof (pow2_ge_0 (IZR x - a)). lra.
Qed.

Lemma squares_sum_zero (l : list Z) (a : R) :
  foldl Rplus 0 (map (λ x, (IZR x - a) ^ 2) l) = 0
  ↔ ∀ x, x ∈ l → IZR x = a.
Proof.
  induction l as [|x l IH]; cbn [foldl map].
  - split; [intros _ y Hy; by apply elem_of_nil in Hy | done].
  - rewrite foldl_Rplus_shift.
    pose proof (pow2_ge_0 (IZR x - a)) as Hx.
    pose proof (squares_sum_nonneg l a) as Hl.
    split.
    + intros Hsum y Hy.
      assert (Hx0 : (IZR x - a) ^ 2 = 0) by lra.
      assert (Hl0 : foldl Rplus 0 (map (λ x, (IZR x - a) ^ 2) l) = 0) by lra.
      apply elem_of_cons in Hy as [->|Hy].
      * destruct (Req_dec (IZR x - a) 0) as [Hy0|Hne]; [lra|].
        by apply (pow_nonzero _ 2) in Hne.
      * by apply IH.
    + intros Hall.
      assert (Hl0 : foldl Rplus 0 (map (λ x, (IZR x - a) ^ 2) l) = 0).
      { apply IH. intros y Hy. apply Hall. by right. }
      rewrite Hl0, (Hall x) by left.
      lra.
Qed.

(** Facts about an object that satisfies the invariant and holds at
    least one document. *)
Lemma nonempty_values s :
  counts_total s → (0 < total_documents s)%Z →
  values s ≠ [] ∧ (0 < unique_shards s)%Z ∧ 0 < avg_docs s.
Proof.
  intros Hs Ht.
  assert (Hv : values s ≠ []).
  { intros Hv. apply values_nil_total in Hv; [lia|done]. }
  assert (Hu : (0 < unique_shards s)%Z).
  { rewrite unique_shards_length. destruct (values s); [done|simpl; lia]. }
  split; [done|]. split; [done|].
  unfold avg_docs. apply Rdiv_lt_0_compat; by apply IZR_lt.
Qed.

Lemma avg_docs_identical s v :
  counts_total s → (0 < total_documents s)%Z →
  identical_counts (distribution s) → v ∈ values s → IZR v = avg_docs s.
Proof.
  intros Hs Ht Hid Hv.
  destruct (nonempty_values s Hs Ht) as (_ & Hu & _).
  unfold avg_docs. rewrite <- Hs. unfold sum_counts. fold (values s).
  rewrite (sum_Z_constant (values s) v).
  - rewrite <- unique_shards_length, mult_IZR.
    field. apply not_0_IZR. lia.
  - intros x Hx. by apply (proj1 (identical_counts_values s) Hid).
Qed.

Lemma variance_nonneg s : (0 < unique_shards s)%Z → 0 <= variance s.
Proof.
  intros Hu. unfold variance.
  apply Rmult_le_pos; [apply squares_sum_nonneg|].
  apply Rlt_le, Rinv_0_lt_compat. by apply IZR_lt.
Qed.

Lemma variance_zero_iff s :
  counts_total s → (0 < total_documents s)%Z →
  variance s = 0 ↔ identical_counts (distribution s).
Proof.
  intros Hs Ht.
  destruct (nonempty_values s Hs Ht) as (_ & Hu & _).
  assert (Hn : 0 < IZR (unique_shards s)) by by apply IZR_lt.
  unfold variance. split.
  - intros Hvar. apply identical_counts_values. intros v1 v2 H1 H2.
    assert (Hsum : foldl Rplus 0
              (map (λ x, (IZR x - avg_docs s) ^ 2) (values s)) = 0).
    { apply (Rmult_eq_reg_r (/ IZR (unique_shards s))).
      - rewrite Rmult_0_l. exact Hvar.
      - apply Rinv_neq_0_compat. lra. }
    pose proof (proj1 (squares_sum_zero _ _) Hsum) as Hall.
    apply eq_IZR. by rewrite (Hall v1), (Hall v2).
  - intros Hid.
    assert (Hsum : foldl Rplus 0
              (map (λ x, (IZR x - avg_docs s) ^ 2) (values s)) = 0).
    { apply squares_sum_zero. intros x Hx. by apply avg_docs_identical. }
    rewrite Hsum. unfold Rdiv. apply Rmult_0_l.
Qed.

Lemma std_dev_zero_iff s :
  (0 < unique_shards s)%Z → std_dev s = 0 ↔ variance s = 0.
Proof.
  intros Hu. unfold std_dev. split.
  - apply sqrt_eq_0. by apply variance_nonneg.
  - intros ->. apply sqrt_0.
Qed.

Lemma balance_factor_spread s :
  0 < avg_docs s →
  balance_factor s
  = IZR (list_max (values s) - list_min (values s)) / avg_docs s.
Proof.
  intros Ha. unfold balance_factor.
  destruct (Rlt_dec 0 (avg_docs s)); [done|contradiction].
Qed.

Lemma balance_factor_nonneg s :
  counts_total s → (0 < total_documents s)%Z → 0 <= balance_factor s.
Proof.
  intros Hs Ht. destruct (nonempty_values s Hs Ht) as (Hv & _ & Ha).
  rewrite balance_factor_spread by done.
  apply Rmult_le_pos; [|by apply Rlt_le, Rinv_0_lt_compat].
  apply IZR_le.
  destruct (list_min_spec _ Hv) as [Hmin _].
  destruct (list_max_spec _ Hv) as [_ Hmax].
  specialize (Hmax _ Hmin). lia.
Qed.

Lemma balance_factor_zero_iff s :
  counts_total s → (0 < total_documents s)%Z →
  balance_factor s = 0 ↔ identical_counts (distribution s).
Proof.
  intros Hs Ht. destruct (nonempty_values s Hs Ht) as (Hv & _ & Ha).
  rewrite balance_factor_spread by done.
  destruct (list_min_spec _ Hv) as [Hmin_in Hmin].
  destruct (list_max_spec _ Hv) as [Hmax_in Hmax].
  rewrite identical_counts_values. split.
  - intros Hbf v1 v2 H1 H2.
    assert (Hz : IZR (list_max (values s) - list_min (values s)) = 0).
    { apply (Rmult_eq_reg_r (/ avg_docs s)).
      - rewrite Rmult_0_l. exact Hbf.
      - apply Rinv_neq_0_compat. lra. }
    apply eq_IZR in Hz.
    pose proof (Hmin _ H1). pose proof (Hmax _ H1).
    pose proof (Hmin _ H2). pose proof (Hmax _ H2). lia.
  - intros Hid. rewrite (Hid _ _ Hmax_in Hmin_in), Z.sub_diag.
    unfold Rdiv. apply Rmult_0_l.
Qed.

(** The report of [get_statistics] on an object that satisfies the
    invariant and holds at least one document. *)
Lemma get_statistics_full s :
  counts_total s → (0 < total_documents s)%Z →
  get_statistics s
  = inr (FullReport (collection_name s) (sharding_key s)
           (total_documents s) (unique_shards s)
           (list_min (values s)) (list_max (values s))
           (py_round (avg_docs s) 2) (py_round (std_dev s) 2)
           (py_round (variance s) 2) (py_round (balance_factor s) 4)
           (distribution s)).
Proof.
  intros Hs Ht. destruct (nonempty_values s Hs Ht) as (Hv & Hu & _).
  unfold get_statistics.
  rewrite bool_decide_eq_false_2 by lia.
  unfold py_min, py_max. destruct (values s) as [|v vs] eqn:Hvs; [done|].
  rewrite bool_decide_eq_false_2 by lia. reflexivity.
Qed.

(** C2, as stated for the reported values, fails on [skewed]: in its
    report the balance factor is 0 although the two counts differ, and
    the variance 1/4 is not 0. The balance factor before rounding is
    2/40001, and [round(_, 4)] takes it to 0. *)
Lemma rounded_balance_factor_counterexample :
  counts_total skewed
  ∧ (0 < total_documents skewed)%Z
  ∧ ¬ identical_counts (distribution skewed)
  ∧ get_statistics skewed
    = inr (FullReport "users" "user_id" 40001 2 20000 20001
             (40001 / 2) (1 / 2) (1 / 4) 0
             {[PInt 0 := 20000%Z; PInt 1 := 20001%Z]})
  ∧ 1 / 4 ≠ 0.
Proof.
  assert (Hcn : collection_name skewed = "users") by (vm_compute; reflexivity).
  assert (Hsk : sharding_key skewed = "user_id") by (vm_compute; reflexivity).
  assert (Hd : distribution skewed = {[PInt 0 := 20000%Z; PInt 1 := 20001%Z]})
    by (vm_compute; reflexivity).
  assert (Ht : total_documents skewed = 40001%Z) by (vm_compute; reflexivity).
  assert (Hu : unique_shards skewed = 2%Z) by (vm_compute; reflexivity).
  assert (Hv : values skewed = [20001; 20000]%Z) by (vm_compute; reflexivity).
  assert (Hinv : counts_total skewed).
  { unfold counts_total, sum_counts. fold (values skewed). by rewrite Hv, Ht. }
  assert (Havg : avg_docs skewed = 40001 / 2).
  { unfold avg_docs. by rewrite Ht, Hu. }
  assert (Hvar : variance skewed = 1 / 4).
  { unfold variance. rewrite Hv, Havg, Hu. cbn [map foldl]. field. }
  assert (Hstd : std_dev skewed = 1 / 2).
  { unfold std_dev. rewrite Hvar. apply sqrt_lem_1; lra. }
  assert (Hbf : balance_factor skewed = 2 / 40001).
  { rewrite balance_factor_spread by (rewrite Havg; lra).
    rewrite Hv, Havg.
    change (list_max [20001; 20000] - list_min [20001; 20000])%Z with 1%Z.
    field. }
  split; [exact Hinv|]. split; [rewrite Ht; reflexivity|]. split.
  - intros Hid. rewrite Hd in Hid.
    specialize (Hid (PInt 0) (PInt 1) 20000%Z 20001%Z).
    discriminate Hid; reflexivity.
  - rewrite get_statistics_full by (exact Hinv || (rewrite Ht; reflexivity)).
    rewrite Hcn, Hsk, Hd, Ht, Hu, Hv, Havg, Hvar, Hstd, Hbf.
    change (list_max [20001; 20000])%Z with 20001%Z.
    change (list_min [20001; 20000])%Z with 20000%Z.
    assert (Hr1 : py_round (40001 / 2) 2 = 40001 / 2).
    { unfold py_round. replace (40001 / 2 * 10 ^ 2) with 2000050 by (simpl; lra).
      rewrite round_half_even_IZR. simpl. lra. }
    assert (Hr2 : py_round (1 / 2) 2 = 1 / 2).
    { unfold py_round. replace (1 / 2 * 10 ^ 2) with 50 by (simpl; lra).
      rewrite round_half_even_IZR. simpl. lra. }
    assert (Hr3 : py_round (1 / 4) 2 = 1 / 4).
    { unfold py_round. replace (1 / 4 * 10 ^ 2) with 25 by (simpl; lra).
      rewrite round_half_even_IZR. simpl. lra. }
    assert (Hr4 : py_round (2 / 40001) 4 = 0).
    { unfold py_round. rewrite round_half_even_small by (simpl; lra).
      unfold Rdiv. apply Rmult_0_l. }
    split; [by rewrite Hr1, Hr2, Hr3, Hr4 | lra].
Qed.

(** C2, with the values before rounding. For an object built by
    [add_document] calls (the counts are positive and add up to
    [total_documents]) that holds at least one document and fewer than
    2^53, the range in which the floats of the code represent every
    count exactly: [get_statistics] returns the full report; the
    reported balance factor is not negative; before rounding, each of
    the balance factor, the variance and the standard deviation is 0
    exactly when all per-key counts are identical; and when they are
    identical the three reported values are 0 too. Nothing is said of a
    reported value when the counts differ: rounding can take it to 0. *)
Theorem statistics_zero_iff_identical s :
  counts_total s → positive_counts s →
  (0 < total_documents s < 2 ^ 53)%Z →
  (∃ avg_reported std_reported var_reported bf_reported,
     get_statistics s
     = inr (FullReport (collection_name s) (sharding_key s)
              (total_documents s) (unique_shards s)
              (list_min (values s)) (list_max (values s))
              avg_reported std_reported var_reported bf_reported
              (distribution s))
     ∧ 0 <= bf_reported
     ∧ (identical_counts (distribution s) →
        bf_reported = 0 ∧ var_reported = 0 ∧ std_reported = 0))
  ∧ (balance_factor s = 0 ↔ identical_counts (distribution s))
  ∧ (variance s = 0 ↔ identical_counts (distribution s))
  ∧ (std_dev s = 0 ↔ identical_counts (distribution s)).
Proof.
  intros Hs _ [Ht _]. destruct (nonempty_values s Hs Ht) as (_ & Hu & _).
  pose proof (balance_factor_zero_iff s Hs Ht) as Hbf.
  pose proof (variance_zero_iff s Hs Ht) as Hvar.
  assert (Hstd : std_dev s = 0 ↔ identical_counts (distribution s)).
  { by rewrite std_dev_zero_iff. }
  split; [|done].
  eexists _, _, _, _. split; [by apply get_statistics_full|].
  split; [by apply py_round_nonneg, balance_factor_nonneg|].
  intros Hid.
  rewrite (proj2 Hbf Hid), (proj2 Hvar Hid), (proj2 Hstd Hid).
  by rewrite !py_round_0.
Qed.

Lemma statistics_zero_iff_identical_witness :
  (∃ avg_reported std_reported var_reported bf_reported,
     get_statistics balanced
     = inr (FullReport (collection_name balanced) (sharding_key balanced)
              (total_documents balanced) (unique_shards balanced)
              (list_min (values balanced)) (list_max (values balanced))
              avg_reported std_reported var_reported bf_reported
              (distribution balanced))
     ∧ 0 <= bf_reported)
  ∧ (variance balanced = 0 ↔ identical_counts (distribution balanced)).
Proof.
  assert (Hd : distribution balanced
               = {[PInt 0 := 2%Z; PInt 1 := 2%Z; PInt 2 := 2%Z]})
    by (vm_compute; reflexivity).
  destruct (statistics_zero_iff_identical balanced)
    as ((avg & std & var & bf & Hrep & Hbf & _) & _ & Hvar & _).
  - unfold counts_total. vm_compute. reflexivity.
  - intros k v. rewrite Hd. intros Hk.
    apply lookup_insert_Some in Hk as [[_ <-]|[_ Hk]]; [lia|].
    apply lookup_insert_Some in Hk as [[_ <-]|[_ Hk]]; [lia|].
    apply lookup_singleton_Some in Hk as [_ <-]. lia.
  - split; vm_compute; reflexivity.
  - split; [|exact Hvar].
    exists avg, std, var, bf. split; [exact Hrep | exact Hbf].
Defined.

End Statistics.


(** * Properties of the schema registry *)

Section Registry.

Lemma dict_get_set_eq {V} (k : string) (v : V) d :
  dict_get k (dict_set k v d) = Some v.
Proof.
  induction d as [|[k' v'] d IH]; simpl.
  - by rewrite bool_decide_eq_true_2.
  - case_bool_decide as Hk; simpl.
    + by rewrite bool_decide_eq_true_2.
    + by rewrite bool_decide_eq_false_2.
Qed.

Lemma dict_get_set_ne {V} (k k' : string) (v : V) d :
  k ≠ k' → dict_get k' (dict_set k v d) = dict_get k' d.
Proof.
  intros Hne. induction d as [|[k0 v0] d IH]; simpl.
  - by rewrite bool_decide_eq_false_2.
  - case_bool_decide as Hk; simpl.
    + subst k0. by rewrite !bool_decide_eq_false_2.
    + case_bool_decide; [done|]. apply IH.
Qed.

Lemma dict_get_None {V} (k : string) (d : list (string * V)) :
  dict_get k d = None ↔ k ∉ d.*1.
Proof.
  induction d as [|[k' v'] d IH]; simpl.
  - split; [intros _; apply not_elem_of_nil | done].
  - rewrite not_elem_of_cons. case_bool_decide as Hk.
    + split; [done | intros [? _]; congruence].
    + rewrite IH. split; [intros ?; split; [congruence|done] | by intros [_ ?]].
Qed.

Lemma dict_get_Some_elem {V} (k : string) (v : V) d :
  dict_get k d = Some v → (k, v) ∈ d.
Proof.
  induction d as [|[k' v'] d IH]; simpl; [done|].
  case_bool_decide as Hk.
  - intros [= ->]. subst. left.
  - intros ?. right. by apply IH.
Qed.

(** Assigning to a key keeps the order of the keys; a new key goes to
    the end. *)
Lemma dict_set_keys {V} (k : string) (v : V) d :
  (dict_set k v d).*1 = if decide (k ∈ d.*1) then d.*1 else d.*1 ++ [k].
Proof.
  induction d as [|[k' v'] d IH]; cbn [dict_set].
  - rewrite decide_False; [done | apply not_elem_of_nil].
  - case_bool_decide as Hk; rewrite !fmap_cons; cbn [fst].
    + subst. rewrite decide_True; [done | left].
    + rewrite IH. destruct (decide (k ∈ d.*1)) as [Hin|Hnin].
      * rewrite decide_True; [done | by right].
      * rewrite decide_False; [done|].
        rewrite not_elem_of_cons. split; [congruence | done].
Qed.

Lemma dict_set_keys_NoDup {V} (k : string) (v : V) d :
  NoDup d.*1 → NoDup (dict_set k v d).*1.
Proof.
  intros Hd. rewrite dict_set_keys. case_decide as Hk; [done|].
  apply NoDup_app. split; [done|]. split.
  - intros x Hx ->%list_elem_of_singleton. done.
  - apply NoDup_singleton.
Qed.

(** X1. [load_schema] returns the parsed collection, with no documents,
    and afterwards the collection and its schema are found under the
    name; what is stored under other names is unchanged. *)
Theorem load_schema_lookup (self : SchemaAnalyzer) name sch :
  let self' := (SchemaAnalyzer.load_schema name sch self).1 in
  let c := (SchemaAnalyzer.load_schema name sch self).2 in
  c = new_Collection name sch
  ∧ document_count c = 0
  ∧ SchemaAnalyzer.get_collection name self' = Some c
  ∧ SchemaAnalyzer.get_schema name self' = Some sch
  ∧ ∀ other, other ≠ name →
      SchemaAnalyzer.get_collection other self'
      = SchemaAnalyzer.get_collection other self
      ∧ SchemaAnalyzer.get_schema other self'
        = SchemaAnalyzer.get_schema other self.
Proof.
  simpl. split; [done|]. split; [done|].
  unfold SchemaAnalyzer.get_collection, SchemaAnalyzer.get_schema,
    Database.get_collection. simpl.
  split; [apply dict_get_set_eq|]. split; [apply dict_get_set_eq|].
  intros other Hne. by rewrite !dict_get_set_ne.
Qed.

(** X2. [load_schema] under a name that is already listed keeps the
    list of collections as it is and replaces the collection, whose
    document count is 0 again; under a new name the name is appended. *)
Theorem load_schema_list_collections (self : SchemaAnalyzer) name sch :
  let self' := (SchemaAnalyzer.load_schema name sch self).1 in
  (name ∈ SchemaAnalyzer.list_collections self →
     SchemaAnalyzer.list_collections self'
     = SchemaAnalyzer.list_collections self)
  ∧ (name ∉ SchemaAnalyzer.list_collections self →
     SchemaAnalyzer.list_collections self'
     = SchemaAnalyzer.list_collections self ++ [name])
  ∧ (document_count <$> SchemaAnalyzer.get_collection name self') = Some 0.
Proof.
  simpl. unfold SchemaAnalyzer.list_collections, Database.list_collections,
    SchemaAnalyzer.get_collection, Database.get_collection. simpl.
  rewrite dict_set_keys, dict_get_set_eq.
  split; [|split; [|done]]; intros Hin.
  - by rewrite decide_True.
  - by rewrite decide_False.
Qed.

Lemma load_schema_list_collections_witness :
  SchemaAnalyzer.list_collections
    (SchemaAnalyzer.load_schema "users" sample_schema
       (SchemaAnalyzer.add_documents "users" 7
          (SchemaAnalyzer.load_schema "users" sample_schema
             (new_SchemaAnalyzer "db")).1)).1
  = ["users"].
Proof.
  pose proof (load_schema_list_collections
                (SchemaAnalyzer.add_documents "users" 7
                   (SchemaAnalyzer.load_schema "users" sample_schema
                      (new_SchemaAnalyzer "db")).1)
                "users" sample_schema) as [Hin _].
  rewrite Hin; [reflexivity|]. vm_compute. left.
Defined.

(** X3. [add_documents] on a name that is not registered changes
    nothing and raises nothing; on a registered name it sets the
    document count of that collection to the given number, keeps its
    name and fields, and leaves the list of collections, the schemas
    and the other collections as they are. *)
Theorem analyzer_add_documents (self : SchemaAnalyzer) name count :
  (SchemaAnalyzer.get_collection name self = None →
     SchemaAnalyzer.add_documents name count self = self)
  ∧ (∀ c, SchemaAnalyzer.get_collection name self = Some c →
       let self' := SchemaAnalyzer.add_documents name count self in
       SchemaAnalyzer.get_collection name self'
       = Some {| c_name := c_name c; fields := fields c;
                 document_count := count |}
       ∧ SchemaAnalyzer.list_collections self'
         = SchemaAnalyzer.list_collections self
       ∧ schemas self' = schemas self
       ∧ ∀ other, other ≠ name →
           SchemaAnalyzer.get_collection other self'
           = SchemaAnalyzer.get_collection other self).
Proof.
  unfold SchemaAnalyzer.add_documents, SchemaAnalyzer.get_collection,
    SchemaAnalyzer.list_collections, Database.list_collections,
    Database.get_collection.
  split.
  - by intros ->.
  - intros c Hc. rewrite Hc. simpl.
    split; [apply dict_get_set_eq|]. split.
    + rewrite dict_set_keys. rewrite decide_True; [done|].
      destruct (decide (name ∈ (collections (database self)).*1)); [done|].
      apply dict_get_None in n. congruence.
    + split; [done|]. intros other Hne. by apply dict_get_set_ne.
Qed.

Lemma analyzer_add_documents_witness :
  SchemaAnalyzer.add_documents "orders" 10 (new_SchemaAnalyzer "db")
  = new_SchemaAnalyzer "db".
Proof.
  apply (analyzer_add_documents (new_SchemaAnalyzer "db") "orders" 10).
  reflexivity.
Defined.

Lemma dict_set_set {V} (k : string) (v1 v2 : V) d :
  dict_set k v2 (dict_set k v1 d) = dict_set k v2 d.
Proof.
  induction d as [|[k' v'] d IH]; simpl.
  - by rewrite bool_decide_eq_true_2.
  - case_bool_decide as Hk; simpl.
    + by rewrite bool_decide_eq_true_2.
    + rewrite bool_decide_eq_false_2 by done. by rewrite IH.
Qed.

(** X4. [add_documents] sets the count and does not accumulate: of two
    calls on the same name the second one alone decides the result. *)
Theorem analyzer_add_documents_twice (self : SchemaAnalyzer) name n m :
  SchemaAnalyzer.add_documents name m
    (SchemaAnalyzer.add_documents name n self)
  = SchemaAnalyzer.add_documents name m self.
Proof.
  unfold SchemaAnalyzer.add_documents, Database.get_collection.
  destruct (dict_get name (collections (database self))) as [c|] eqn:Hc.
  - simpl. rewrite dict_get_set_eq. simpl. by rewrite dict_set_set.
  - by rewrite Hc.
Qed.

Lemma load_schema_lookup_witness :
  SchemaAnalyzer.get_collection "orders"
    (SchemaAnalyzer.load_schema "users" sample_schema
       (new_SchemaAnalyzer "db")).1
  = None.
Proof.
  destruct (load_schema_lookup (new_SchemaAnalyzer "db") "users" sample_schema)
    as (_ & _ & _ & _ & Hother).
  destruct (Hother "orders") as [Hc _]; [discriminate|].
  rewrite Hc. reflexivity.
Defined.

Lemma analyzer_consistent_new name :
  analyzer_consistent (new_SchemaAnalyzer name).
Proof.
  split; [apply NoDup_nil_2|]. split; [done|]. intros n c [=].
Qed.

Lemma analyzer_consistent_apply_call self call :
  analyzer_consistent self → analyzer_consistent (apply_call self call).
Proof.
  intros (Hnd & Hkeys & Hcol).
  unfold analyzer_consistent, SchemaAnalyzer.list_collections,
    Database.list_collections, SchemaAnalyzer.get_collection,
    SchemaAnalyzer.get_schema, Database.get_collection in *.
  destruct call as [name sch|name count]; simpl.
  - split; [by apply dict_set_keys_NoDup|]. split.
    + by rewrite !dict_set_keys, Hkeys.
    + intros n c. destruct (decide (name = n)) as [->|Hne].
      * rewrite !dict_get_set_eq. intros [= <-]. eauto.
      * rewrite !dict_get_set_ne by done. apply Hcol.
  - unfold SchemaAnalyzer.add_documents, Database.get_collection.
    destruct (dict_get name (collections (database self))) as [c0|] eqn:Hc0;
      [|done].
    simpl. split; [by apply dict_set_keys_NoDup|]. split.
    + rewrite dict_set_keys, Hkeys. rewrite decide_True; [done|].
      destruct (decide (name ∈ (collections (database self)).*1)) as [|Hn];
        [done|].
      apply dict_get_None in Hn. congruence.
    + intros n c. destruct (decide (name = n)) as [->|Hne].
      * rewrite dict_get_set_eq. intros [= <-]. simpl. by apply Hcol.
      * rewrite dict_get_set_ne by done. apply Hcol.
Qed.

(** X5. After any sequence of [load_schema] and [add_documents] calls
    on a new analyzer: no name is listed twice, the schemas and the
    collections are stored under the same names in the same order, and
    the collection found under a name carries that name and the fields
    parsed from the schema stored under it. *)
Theorem analyzer_stays_consistent name (calls : list analyzer_call) :
  let self := foldl apply_call (new_SchemaAnalyzer name) calls in
  NoDup (SchemaAnalyzer.list_collections self)
  ∧ (schemas self).*1 = SchemaAnalyzer.list_collections self
  ∧ ∀ n c, SchemaAnalyzer.get_collection n self = Some c →
      c_name c = n
      ∧ ∃ sch, SchemaAnalyzer.get_schema n self = Some sch
               ∧ fields c = parse_schema sch ∅.
Proof.
  simpl. change (analyzer_consistent
                   (foldl apply_call (new_SchemaAnalyzer name) calls)).
  generalize (analyzer_consistent_new name).
  generalize (new_SchemaAnalyzer name).
  induction calls as [|call calls IH]; intros self Hself; simpl; [done|].
  apply IH. by apply analyzer_consistent_apply_call.
Qed.

Lemma analyzer_stays_consistent_witness :
  ∃ sch,
    SchemaAnalyzer.get_schema "users"
      (foldl apply_call (new_SchemaAnalyzer "db")
         [LoadSchema "users" sample_schema; AddDocuments "users" 7]) = Some sch
    ∧ fields (add_documents 7 (new_Collection "users" sample_schema))
      = parse_schema sch ∅.
Proof.
  destruct (analyzer_stays_consistent "db"
              [LoadSchema "users" sample_schema; AddDocuments "users" 7])
    as (_ & _ & Hcol).
  destruct (Hcol "users" (add_documents 7 (new_Collection "users" sample_schema)))
    as [_ Hsch]; [reflexivity | exact Hsch].
Defined.

Lemma parse_schema_lookup sch k :
  parse_schema sch ∅ !! k
  = field_of_schema k <$> (default ∅ (sch_properties sch) !! k).
Proof.
  unfold parse_schema. destruct (sch_properties sch) as [props|]; simpl.
  - revert k.
    apply (map_fold_weak_ind (λ (r : gmap string Field) m,
             ∀ k, r !! k = field_of_schema k <$> m !! k)).
    + intros k. by rewrite !lookup_empty.
    + intros i fs m r Hi IH k. rewrite !lookup_insert.
      case_decide; [by subst | apply IH].
  - by rewrite !lookup_empty.
Qed.

Lemma unknown_field_size name constraints items :
  SizeCalculator.field_size (new_Field name (PStr "unknown") constraints items)
  = 50.
Proof. reflexivity. Qed.

(** X6. [Collection(name, schema)] has one field per entry of the
    schema's [properties], under the same name, and none when the schema
    has no [properties], in which case a document is 24 bytes; a field
    whose schema has no [type] has type ["unknown"] and counts for 50
    bytes whatever else it declares. *)
Theorem new_Collection_fields name sch :
  let c := new_Collection name sch in
  (∀ k, fields c !! k
        = field_of_schema k <$> (default ∅ (sch_properties sch) !! k))
  ∧ size (fields c) = size (default ∅ (sch_properties sch))
  ∧ (sch_properties sch = None →
     fields c = ∅ ∧ SizeCalculator.calculate_document_size c = 24)
  ∧ (∀ k fs, default ∅ (sch_properties sch) !! k = Some fs →
       fs_type fs = None →
       ∃ f, fields c !! k = Some f ∧ f_type f = PStr "unknown"
            ∧ SizeCalculator.field_size f = 50).
Proof.
  simpl. split; [apply parse_schema_lookup|]. split; [|split].
  - rewrite <- !size_dom. f_equal. apply set_eq. intros k.
    rewrite !elem_of_dom, parse_schema_lookup. by rewrite fmap_is_Some.
  - intros Hnone.
    assert (Hf : parse_schema sch ∅ = ∅)
      by (unfold parse_schema; by rewrite Hnone).
    unfold SizeCalculator.calculate_document_size. simpl. rewrite Hf.
    split; [done|]. apply map_fold_empty.
  - intros k fs Hk Hty. eexists. rewrite parse_schema_lookup, Hk. simpl.
    split; [done|]. unfold field_of_schema. rewrite Hty. simpl.
    split; [done|]. apply unknown_field_size.
Qed.

Lemma new_Collection_fields_witness :
  ∃ f, fields (new_Collection "events" sample_schema) !! "payload" = Some f
       ∧ f_type f = PStr "unknown" ∧ SizeCalculator.field_size f = 50.
Proof.
  destruct (new_Collection_fields "events" sample_schema) as (_ & _ & _ & H).
  apply (H "payload" {| fs_type := None; fs_constraints := ∅; fs_items := None |});
    reflexivity.
Defined.

End Registry.

(** * Further properties of the size estimator *)

Section Sizes.
Import SizeCalculator.

Lemma TYPE_SIZES_nonneg t v : TYPE_SIZES !! t = Some v → 0 ≤ v.
Proof.
  revert t v. change (map_Forall (λ _ v, 0 ≤ v) TYPE_SIZES).
  apply map_Forall_to_list.
  apply Forall_forall. intros [t v] Hin. simpl.
  apply elem_of_map_to_list in Hin.
  unfold TYPE_SIZES in Hin.
  repeat (apply lookup_insert_Some in Hin as [[_ <-]|[_ Hin]]; [lia|]).
  by rewrite lookup_empty in Hin.
Qed.

Lemma TYPE_SIZES_get_nonneg field_type : 0 ≤ TYPE_SIZES_get field_type.
Proof.
  destruct field_type as [z|t]; simpl; [lia|].
  destruct (TYPE_SIZES !! t) as [v|] eqn:Ht; simpl; [|lia].
  by eapply TYPE_SIZES_nonneg.
Qed.

Lemma get_type_size_nonneg field_type (properties : gmap string Z) :
  (∀ n, (properties !! "maxLength" = Some n
         ∨ properties !! "minLength" = Some n) → 0 ≤ n) →
  0 ≤ get_type_size field_type (Some properties).
Proof.
  intros Hn. pose proof (TYPE_SIZES_get_nonneg field_type) as Hb.
  unfold get_type_size. simpl. case_bool_decide; [|done].
  destruct (properties !! "maxLength") as [n|] eqn:Hmax; [by apply Hn; left|].
  destruct (properties !! "minLength") as [n|] eqn:Hmin; [by apply Hn; right|].
  done.
Qed.

(** Without properties the size is the one of the table. *)
Lemma get_type_size_None field_type :
  get_type_size field_type None = TYPE_SIZES_get field_type.
Proof.
  unfold get_type_size. simpl. case_bool_decide; [|done].
  by rewrite !lookup_empty.
Qed.

Lemma field_size_nonneg f : lengths_nonneg f → 0 ≤ field_size f.
Proof.
  intros Hf. unfold field_size.
  destruct (is_object f); [lia|].
  destruct (is_array f && items_truthy (f_items f)).
  - rewrite get_type_size_None.
    pose proof (TYPE_SIZES_get_nonneg
                  (default (PStr "object") (default ∅ (f_items f) !! "type"))).
    lia.
  - by apply get_type_size_nonneg.
Qed.

Lemma document_size_insert (m : gmap string Field) k f :
  m !! k = None →
  map_fold (λ (_ : string) field total_size,
              total_size + (field_size field + 8)) 24 (<[k := f]> m)
  = map_fold (λ (_ : string) field total_size,
                total_size + (field_size field + 8)) 24 m
    + (field_size f + 8).
Proof.
  intros Hk. rewrite map_fold_insert_L; [done| |done].
  intros. lia.
Qed.

(** X7. Setting a field under a name that the collection does not have
    adds the size of the field and 8 bytes to the document size; setting
    it under a name that it has replaces the size of the old field by
    the size of the new one. *)
Theorem calculate_document_size_set_field c k f :
  (fields c !! k = None →
     calculate_document_size (set_field k f c)
     = calculate_document_size c + field_size f + 8)
  ∧ (∀ f0, fields c !! k = Some f0 →
       calculate_document_size (set_field k f c)
       = calculate_document_size c - field_size f0 + field_size f).
Proof.
  unfold calculate_document_size, set_field. simpl. split.
  - intros Hk. rewrite document_size_insert by done. lia.
  - intros f0 Hk.
    rewrite <- (insert_delete_eq (fields c) k f).
    rewrite <- (insert_delete_id (fields c) k f0 Hk) at 2.
    rewrite !document_size_insert by apply lookup_delete_eq. lia.
Qed.

Lemma calculate_document_size_set_field_witness :
  calculate_document_size
    (set_field "age" (new_Field "age" (PStr "integer") ∅ None) two_field_schema)
  = calculate_document_size two_field_schema + 4 + 8.
Proof.
  destruct (calculate_document_size_set_field two_field_schema "age"
              (new_Field "age" (PStr "integer") ∅ None)) as [Hnew _].
  apply Hnew. reflexivity.
Defined.

(** X8. When no field carries a negative [maxLength] or [minLength],
    a document is at least 24 bytes plus 8 bytes per field. *)
Theorem calculate_document_size_lower_bound c :
  (∀ k f, fields c !! k = Some f → lengths_nonneg f) →
  24 + 8 * Z.of_nat (size (fields c)) ≤ calculate_document_size c.
Proof.
  unfold calculate_document_size.
  apply (map_fold_weak_ind (λ r (m : gmap string Field),
           (∀ k f, m !! k = Some f → lengths_nonneg f) →
           24 + 8 * Z.of_nat (size m) ≤ r)).
  - intros _. rewrite map_size_empty. lia.
  - intros k f m r Hk IH Hall.
    rewrite map_size_insert_None by done.
    assert (Hf : 0 ≤ field_size f).
    { apply field_size_nonneg. apply (Hall k). apply lookup_insert_eq. }
    assert (Hm : 24 + 8 * Z.of_nat (size m) ≤ r).
    { apply IH. intros k' f' Hk'. apply (Hall k').
      rewrite lookup_insert_ne; [done|]. intros ->. congruence. }
    lia.
Qed.

Lemma calculate_document_size_lower_bound_witness :
  24 + 8 * 2 ≤ calculate_document_size two_field_schema.
Proof.
  apply (calculate_document_size_lower_bound two_field_schema).
  intros k f Hk n Hn.
  unfold two_field_schema in Hk. cbn [fields] in Hk.
  apply lookup_insert_Some in Hk as [[_ <-]|[_ Hk]].
  - destruct Hn as [Hn|Hn]; vm_compute in Hn; discriminate Hn.
  - apply lookup_insert_Some in Hk as [[_ <-]|[_ Hk]].
    + destruct Hn as [Hn|Hn]; vm_compute in Hn; [|discriminate Hn].
      injection Hn as <-. lia.
    + by rewrite lookup_empty in Hk.
Defined.

Lemma calculate_collection_size_fits c :
  division_overflows (collection_bytes c) = false →
  calculate_collection_size c = inr (collection_report c).
Proof.
  intros Hfit. unfold calculate_collection_size.
  fold (collection_bytes c). by rewrite Hfit.
Qed.

Lemma calculate_collection_size_overflows c :
  division_overflows (collection_bytes c) = true →
  calculate_collection_size c
  = inl (OverflowError "integer division result too large for a float").
Proof.
  intros Hover. unfold calculate_collection_size.
  fold (collection_bytes c). by rewrite Hover.
Qed.

Lemma database_size_loop_fits (cs : list (string * Collection)) :
  Forall (λ nc, division_overflows (collection_bytes nc.2) = false) cs →
  ∀ t l,
  database_size_loop cs t l
  = inr (t + sum_Z ((λ nc, collection_bytes nc.2) <$> cs),
         l ++ ((λ nc, collection_report nc.2) <$> cs)).
Proof.
  induction 1 as [|[n c] cs Hc _ IH]; intros t l.
  - cbn [database_size_loop fmap list_fmap]. unfold sum_Z. cbn [foldr].
    by rewrite Z.add_0_r, app_nil_r.
  - cbn [database_size_loop]. cbn [snd] in Hc.
    rewrite calculate_collection_size_fits by done.
    rewrite IH, !fmap_cons. unfold sum_Z. cbn [foldr snd].
    change (total_collection_size_bytes (collection_report c))
      with (collection_bytes c).
    f_equal. f_equal; [lia | by rewrite <- app_assoc].
Qed.

Lemma database_size_loop_overflows (cs : list (string * Collection)) :
  Exists (λ nc, division_overflows (collection_bytes nc.2) = true) cs →
  ∀ t l,
  database_size_loop cs t l
  = inl (OverflowError "integer division result too large for a float").
Proof.
  induction cs as [|[n c] cs IH]; intros Hex t l.
  - by apply Exists_nil in Hex.
  - cbn [database_size_loop].
    destruct (division_overflows (collection_bytes c)) eqn:Hc.
    + by rewrite calculate_collection_size_overflows.
    + rewrite calculate_collection_size_fits by done.
      apply IH. apply Exists_cons in Hex as [Hex|Hex]; [|done].
      cbn [snd] in Hex. congruence.
Qed.

Lemma calculate_database_size_fits db :
  Forall (λ nc, division_overflows (collection_bytes nc.2) = false)
         (collections db) →
  division_overflows (database_bytes db) = false →
  calculate_database_size db
  = inr {| di_database_name := db_name db;
           collection_count := Z.of_nat (length (collections db));
           di_collections := (λ nc, collection_report nc.2) <$> collections db;
           total_database_size_bytes := database_bytes db;
           total_database_size_mb :=
             py_round (IZR (database_bytes db) / IZR (1024 ^ 2)) 2;
           total_database_size_gb :=
             py_round (IZR (database_bytes db) / IZR (1024 ^ 3)) 4 |}.
Proof.
  intros Hall Hfit. unfold calculate_database_size.
  rewrite database_size_loop_fits by done.
  rewrite Z.add_0_l, app_nil_l. fold (database_bytes db). by rewrite Hfit.
Qed.

Lemma calculate_database_size_overflows db :
  Exists (λ nc, division_overflows (collection_bytes nc.2) = true)
         (collections db)
  ∨ division_overflows (database_bytes db) = true →
  calculate_database_size db
  = inl (OverflowError "integer division result too large for a float").
Proof.
  intros Hover. unfold calculate_database_size.
  destruct (decide (Forall (λ nc, division_overflows (collection_bytes nc.2)
                                  = false) (collections db))) as [Hall|Hnall].
  - destruct Hover as [Hex|Htot].
    + exfalso. apply Exists_exists in Hex as (nc & Hin & Hnc).
      rewrite Forall_forall in Hall. specialize (Hall nc Hin). congruence.
    + rewrite database_size_loop_fits by done.
      rewrite Z.add_0_l. fold (database_bytes db). by rewrite Htot.
  - rewrite database_size_loop_overflows; [done|].
    apply not_Forall_Exists in Hnall; [|apply _].
    eapply Exists_impl; [exact Hnall|]. simpl. intros nc Hnc.
    by destruct (division_overflows (collection_bytes nc.2)).
Qed.

(** When [calculate_database_size] returns, no division was out of
    range, and the total is the sum of the bytes of the collections. *)
Lemma calculate_database_size_returned db info :
  calculate_database_size db = inr info →
  Forall (λ nc, division_overflows (collection_bytes nc.2) = false)
         (collections db)
  ∧ division_overflows (database_bytes db) = false
  ∧ total_database_size_bytes info = database_bytes db.
Proof.
  intros Hret.
  destruct (decide (Forall (λ nc, division_overflows (collection_bytes nc.2)
                                  = false) (collections db))) as [Hall|Hnall].
  - destruct (division_overflows (database_bytes db)) eqn:Htot.
    + rewrite calculate_database_size_overflows in Hret by (by right). done.
    + rewrite calculate_database_size_fits in Hret by done.
      injection Hret as <-. done.
  - rewrite calculate_database_size_overflows in Hret; [done|]. left.
    apply not_Forall_Exists in Hnall; [|apply _].
    eapply Exists_impl; [exact Hnall|]. simpl. intros nc Hnc.
    by destruct (division_overflows (collection_bytes nc.2)).
Qed.

(** X9. [calculate_database_size] raises [OverflowError] when the bytes
    of one collection, or the bytes of the database, have an absolute
    value of at least (2^1024 - 2^970) * 2^20, which a document count set
    by [add_documents] can reach. Otherwise it returns a report whose
    total bytes are the sum, over the collections, of document size
    times document count, with one collection report per collection, in
    the order of the database, and with [collection_count] their
    number. *)
Theorem calculate_database_size_sum db :
  (Forall (λ nc, division_overflows
                   (calculate_document_size nc.2 * document_count nc.2)
                 = false) (collections db) →
   division_overflows
     (sum_Z ((λ nc, calculate_document_size nc.2 * document_count nc.2)
               <$> collections db)) = false →
   ∃ info,
     calculate_database_size db = inr info
     ∧ total_database_size_bytes info
       = sum_Z ((λ nc, calculate_document_size nc.2 * document_count nc.2)
                  <$> collections db)
     ∧ total_collection_size_bytes <$> di_collections info
       = (λ nc, calculate_document_size nc.2 * document_count nc.2)
           <$> collections db
     ∧ ci_collection_name <$> di_collections info
       = (λ nc, c_name nc.2) <$> collections db
     ∧ collection_count info = Z.of_nat (length (di_collections info)))
  ∧ (Exists (λ nc, division_overflows
                     (calculate_document_size nc.2 * document_count nc.2)
                   = true) (collections db)
     ∨ division_overflows
         (sum_Z ((λ nc, calculate_document_size nc.2 * document_count nc.2)
                   <$> collections db)) = true →
     calculate_database_size db
     = inl (OverflowError "integer division result too large for a float")).
Proof.
  split.
  - intros Hall Hfit. eexists. split.
    { apply calculate_database_size_fits; [exact Hall | exact Hfit]. }
    cbn [total_database_size_bytes di_collections collection_count].
    split; [done|]. split; [by rewrite <- list_fmap_compose|].
    split; [by rewrite <- list_fmap_compose|].
    by rewrite length_fmap.
  - apply calculate_database_size_overflows.
Qed.

Lemma calculate_database_size_sum_witness :
  calculate_database_size
    (database
       (SchemaAnalyzer.add_documents "users" huge_count
          (SchemaAnalyzer.load_schema "users" sample_schema
             (new_SchemaAnalyzer "db")).1))
  = inl (OverflowError "integer division result too large for a float").
Proof.
  apply calculate_database_size_sum.
  left. apply Exists_cons_hd. vm_compute. reflexivity.
Defined.

Lemma dict_set_fresh {V} (k : string) (v : V) d :
  k ∉ d.*1 → dict_set k v d = d ++ [(k, v)].
Proof.
  induction d as [|[k' v'] d IH]; simpl; [done|].
  rewrite not_elem_of_cons. intros [Hne Hnin].
  rewrite bool_decide_eq_false_2 by done. by rewrite IH.
Qed.

Lemma sum_dict_set_present {V} (g : V → Z) (k : string) (v v0 : V) d :
  dict_get k d = Some v0 →
  sum_Z ((λ kv, g kv.2) <$> dict_set k v d)
  = sum_Z ((λ kv, g kv.2) <$> d) - g v0 + g v.
Proof.
  induction d as [|[k' v'] d IH]; [done|].
  cbn [dict_get dict_set]. case_bool_decide as Hk.
  - intros [= ->]. rewrite !fmap_cons. unfold sum_Z. cbn [foldr snd]. lia.
  - intros Hd. rewrite !fmap_cons. unfold sum_Z in *. cbn [foldr snd].
    rewrite IH by done. lia.
Qed.

Lemma Forall_dict_set {V} (P : string * V → Prop) (k : string) (v : V) d :
  P (k, v) → Forall P d → Forall P (dict_set k v d).
Proof.
  intros Hv. induction 1 as [|[k' v'] d Hhd Htl IH]; cbn [dict_set].
  - by constructor.
  - case_bool_decide; constructor; done.
Qed.

Lemma division_overflows_0 : division_overflows 0 = false.
Proof. vm_compute. reflexivity. Qed.

(** X10. How the calls of the analyzer move the bytes that
    [calculate_database_size] reports. When it returns a report for the
    database: after [load_schema] under a new name it returns a report
    with the same total (the new collection has no documents); after
    [add_documents] on a registered collection, provided the new bytes
    of that collection and of the database are in the range of the
    division, it returns a report whose total has changed by the
    document size of that collection times the change of its document
    count. *)
Theorem database_bytes_after_call (self : SchemaAnalyzer) name info :
  calculate_database_size (database self) = inr info →
  (∀ sch, name ∉ SchemaAnalyzer.list_collections self →
     ∃ info',
       calculate_database_size
         (database (SchemaAnalyzer.load_schema name sch self).1) = inr info'
       ∧ total_database_size_bytes info' = total_database_size_bytes info)
  ∧ (∀ c count, SchemaAnalyzer.get_collection name self = Some c →
       division_overflows (calculate_document_size c * count) = false →
       division_overflows
         (total_database_size_bytes info
          + calculate_document_size c * (count - document_count c)) = false →
       ∃ info',
         calculate_database_size
           (database (SchemaAnalyzer.add_documents name count self)) = inr info'
         ∧ total_database_size_bytes info'
           = total_database_size_bytes info
             + calculate_document_size c * (count - document_count c)).
Proof.
  intros Hret.
  destruct (calculate_database_size_returned _ _ Hret) as (Hall & Hfit & Htot).
  rewrite Htot. split.
  - intros sch Hnew.
    assert (Hcs : collections (database (SchemaAnalyzer.load_schema name sch self).1)
                  = collections (database self) ++ [(name, new_Collection name sch)]).
    { simpl. by apply dict_set_fresh. }
    assert (Hb : database_bytes (database (SchemaAnalyzer.load_schema name sch self).1)
                 = database_bytes (database self)).
    { unfold database_bytes. rewrite Hcs, fmap_app, sum_Z_app.
      unfold sum_Z at 2. unfold collection_bytes. simpl. lia. }
    eexists. split.
    + apply calculate_database_size_fits.
      * rewrite Hcs. apply Forall_app. split; [done|].
        constructor; [|constructor]. cbn [snd].
        unfold collection_bytes. simpl. rewrite Z.mul_0_r.
        apply division_overflows_0.
      * by rewrite Hb.
    + cbn [total_database_size_bytes]. exact Hb.
  - intros c count Hc Hfc Hft.
    unfold SchemaAnalyzer.get_collection, Database.get_collection in Hc.
    assert (Hcs : collections (database (SchemaAnalyzer.add_documents name count self))
                  = dict_set name (add_documents count c)
                      (collections (database self))).
    { unfold SchemaAnalyzer.add_documents, Database.get_collection.
      by rewrite Hc. }
    assert (Hb : database_bytes (database (SchemaAnalyzer.add_documents name count self))
                 = database_bytes (database self)
                   + calculate_document_size c * (count - document_count c)).
    { unfold database_bytes. rewrite Hcs.
      rewrite (sum_dict_set_present collection_bytes _ _ c) by exact Hc.
      unfold collection_bytes, calculate_document_size. simpl. lia. }
    eexists. split.
    + apply calculate_database_size_fits.
      * rewrite Hcs. apply Forall_dict_set; [|done].
        cbn [snd]. exact Hfc.
      * by rewrite Hb.
    + cbn [total_database_size_bytes]. exact Hb.
Qed.

Lemma database_bytes_after_call_witness :
  ∃ info',
    calculate_database_size
      (database (SchemaAnalyzer.add_documents "users" 1000
                   (SchemaAnalyzer.load_schema "users" sample_schema
                      (new_SchemaAnalyzer "db")).1)) = inr info'
    ∧ total_database_size_bytes info' = 414000.
Proof.
  pose (self := (SchemaAnalyzer.load_schema "users" sample_schema
                   (new_SchemaAnalyzer "db")).1).
  assert (Hret : ∃ info, calculate_database_size (database self) = inr info
                         ∧ total_database_size_bytes info = 0).
  { eexists. split.
    - apply calculate_database_size_fits.
      + repeat constructor.
      + vm_compute. reflexivity.
    - vm_compute. reflexivity. }
  destruct Hret as (info & Hret & Htot).
  destruct (database_bytes_after_call self "users" info Hret) as [_ Hadd].
  destruct (Hadd (new_Collection "users" sample_schema) 1000)
    as (info' & Hret' & Htot').
  - reflexivity.
  - vm_compute. reflexivity.
  - rewrite Htot. vm_compute. reflexivity.
  - exists info'. split; [exact Hret'|].
    rewrite Htot', Htot. vm_compute. reflexivity.
Defined.

(** X11. A collection without documents counts for nothing: its report
    is returned with a total of 0 bytes, 0 MB and 0 GB whatever its
    fields; and so is the report of a database all of whose collections
    have document count 0. *)
Theorem zero_documents_zero_size :
  (∀ c, document_count c = 0 →
     ∃ info,
       calculate_collection_size c = inr info
       ∧ total_collection_size_bytes info = 0
       ∧ total_collection_size_mb info = 0%R
       ∧ total_collection_size_gb info = 0%R)
  ∧ (∀ db, Forall (λ nc, document_count nc.2 = 0) (collections db) →
       ∃ info,
         calculate_database_size db = inr info
         ∧ total_database_size_bytes info = 0
         ∧ total_database_size_mb info = 0%R
         ∧ total_database_size_gb info = 0%R).
Proof.
  assert (Hz : ∀ n, py_round (0 / IZR (1024 ^ n)) 2 = 0%R
                    ∧ py_round (0 / IZR (1024 ^ n)) 4 = 0%R).
  { intros n. unfold Rdiv. rewrite Rmult_0_l. by rewrite !py_round_0. }
  assert (Hc0 : ∀ c, document_count c = 0 → collection_bytes c = 0).
  { intros c Hc. unfold collection_bytes. rewrite Hc. lia. }
  split.
  - intros c Hc. eexists. split.
    + apply calculate_collection_size_fits. rewrite Hc0 by done.
      apply division_overflows_0.
    + cbn [total_collection_size_bytes total_collection_size_mb
           total_collection_size_gb collection_report].
      rewrite Hc0 by done. split; [done|]. split; apply Hz.
  - intros db Hall.
    assert (Hb : database_bytes db = 0).
    { unfold database_bytes.
      induction Hall as [|[n c] cs Hc _ IH]; [done|].
      rewrite fmap_cons. unfold sum_Z in *. cbn [foldr snd]. rewrite IH.
      cbn [snd] in Hc. rewrite Hc0 by done. lia. }
    eexists. split.
    + apply calculate_database_size_fits.
      * eapply Forall_impl; [exact Hall|]. intros [n c] Hc. cbn [snd] in *.
        rewrite Hc0 by done. apply division_overflows_0.
      * rewrite Hb. apply division_overflows_0.
    + cbn [total_database_size_bytes total_database_size_mb
           total_database_size_gb].
      rewrite Hb. split; [done|]. split; apply Hz.
Qed.

Lemma zero_documents_zero_size_witness :
  ∃ info,
    calculate_collection_size (new_Collection "users" sample_schema) = inr info
    ∧ total_collection_size_mb info = 0%R.
Proof.
  destruct zero_documents_zero_size as [Hc _].
  destruct (Hc (new_Collection "users" sample_schema))
    as (info & Hret & _ & Hmb & _); [reflexivity|].
  exists info. split; [exact Hret | exact Hmb].
Defined.

End Sizes.

(** * Further properties of the distribution *)

Section Counting.

Lemma add_document_comm x y s :
  add_document x (add_document y s) = add_document y (add_document x s).
Proof.
  unfold add_document. simpl. f_equal; try lia.
  destruct (decide (x = y)) as [->|Hne]; [done|].
  rewrite !lookup_insert_ne by done.
  by rewrite insert_insert_ne.
Qed.

(** X12. The order of the key values of a batch is irrelevant: two
    batches that are permutations of each other lead from the same
    object to the same object. *)
Theorem add_documents_batch_permutation ks1 ks2 s :
  ks1 ≡ₚ ks2 → add_documents_batch ks1 s = add_documents_batch ks2 s.
Proof.
  unfold add_documents_batch. intros Hp. revert s.
  induction Hp as [|x l1 l2 _ IH|x y l|l1 l2 l3 _ IH1 _ IH2]; intros s; simpl.
  - done.
  - apply IH.
  - by rewrite add_document_comm.
  - by rewrite IH1, IH2.
Qed.

Lemma add_documents_batch_permutation_witness :
  add_documents_batch [PStr "a"; PStr "b"; PStr "a"]
    (new_ShardingStatistics "users" "user_id")
  = add_documents_batch [PStr "a"; PStr "a"; PStr "b"]
      (new_ShardingStatistics "users" "user_id").
Proof.
  apply add_documents_batch_permutation.
  apply perm_skip, perm_swap.
Defined.

Lemma total_add_documents_batch ks s :
  total_documents (add_documents_batch ks s)
  = total_documents s + Z.of_nat (length ks).
Proof.
  unfold add_documents_batch. revert s.
  induction ks as [|k ks IH]; intros s; simpl; [lia|].
  rewrite IH. simpl. lia.
Qed.

(** X13. On a new object, after one batch, the count stored for a key
    value is the number of times it occurs in the batch, a key value
    that does not occur has no entry, and [total_documents] is the
    length of the batch; on any object a batch adds its length to
    [total_documents] and, for each key value, its number of
    occurrences to the count. *)
Theorem add_documents_batch_counts ks :
  (∀ cn sk k,
     let s := add_documents_batch ks (new_ShardingStatistics cn sk) in
     distribution s !! k
     = (if bool_decide (k ∈ ks) then Some (occurrences k ks) else None)
     ∧ total_documents s = Z.of_nat (length ks))
  ∧ (∀ s k,
       total_documents (add_documents_batch ks s)
       = total_documents s + Z.of_nat (length ks)
       ∧ default 0 (distribution (add_documents_batch ks s) !! k)
         = default 0 (distribution s !! k) + occurrences k ks).
Proof.
  split.
  - intros cn sk k. simpl. split.
    + destruct (distribution (add_documents_batch ks
                  (new_ShardingStatistics cn sk)) !! k) as [v|] eqn:Hk.
      * apply lookup_fresh_batch in Hk as [-> Hin].
        by rewrite bool_decide_eq_true_2.
      * rewrite bool_decide_eq_false_2; [done|]. intros Hin.
        assert (Hs : is_Some (distribution (add_documents_batch ks
                       (new_ShardingStatistics cn sk)) !! k)).
        { apply is_Some_add_documents_batch. by right. }
        rewrite Hk in Hs. by destruct Hs.
    + by rewrite total_add_documents_batch.
  - intros s k. split.
    + apply total_add_documents_batch.
    + apply count_add_documents_batch.
Qed.

Lemma positive_counts_new cn sk : positive_counts (new_ShardingStatistics cn sk).
Proof. intros k v. simpl. by rewrite lookup_empty. Qed.

Lemma positive_counts_add_document k s :
  positive_counts s → positive_counts (add_document k s).
Proof.
  intros Hs k' v. rewrite lookup_add_document. case_decide.
  - intros [= <-]. destruct (distribution s !! k') as [v0|] eqn:Hk'; simpl; [|lia].
    apply Hs in Hk'. lia.
  - apply Hs.
Qed.

Lemma positive_counts_add_documents_batch ks s :
  positive_counts s → positive_counts (add_documents_batch ks s).
Proof.
  unfold add_documents_batch. revert s.
  induction ks as [|k ks IH]; intros s Hs; simpl; [done|].
  apply IH. by apply positive_counts_add_document.
Qed.

Lemma positive_counts_apply_updates cn sk us :
  positive_counts (apply_updates cn sk us).
Proof.
  unfold apply_updates.
  generalize (positive_counts_new cn sk).
  generalize (new_ShardingStatistics cn sk).
  induction us as [|u us IH]; intros s Hs; simpl; [done|].
  apply IH. destruct u; simpl.
  - by apply positive_counts_add_document.
  - by apply positive_counts_add_documents_batch.
Qed.

Lemma counts_total_apply_updates cn sk us :
  counts_total (apply_updates cn sk us).
Proof.
  unfold apply_updates.
  generalize (counts_total_new cn sk).
  generalize (new_ShardingStatistics cn sk).
  induction us as [|u us IH]; intros s Hs; simpl; [done|].
  apply IH. by apply counts_total_apply_update.
Qed.

Lemma sum_Z_bounds (l : list Z) (lo hi : Z) :
  (∀ x, x ∈ l → lo ≤ x ≤ hi) →
  Z.of_nat (length l) * lo ≤ sum_Z l ≤ Z.of_nat (length l) * hi.
Proof.
  unfold sum_Z. induction l as [|a l IH]; intros Hb; [simpl; lia|].
  cbn [foldr length].
  pose proof (Hb a ltac:(left)) as Ha.
  assert (Hl : ∀ x, x ∈ l → lo ≤ x ≤ hi) by (intros x Hx; apply Hb; by right).
  specialize (IH Hl). lia.
Qed.

Lemma sum_Z_elem_le (l : list Z) x :
  (∀ y, y ∈ l → 0 ≤ y) → x ∈ l → x ≤ sum_Z l.
Proof.
  unfold sum_Z. induction l as [|a l IH]; intros Hpos Hx.
  - by apply elem_of_nil in Hx.
  - cbn [foldr].
    pose proof (Hpos a ltac:(left)) as Ha.
    assert (Hl : ∀ y, y ∈ l → 0 ≤ y) by (intros y Hy; apply Hpos; by right).
    assert (Hs : 0 ≤ foldr Z.add 0 l).
    { clear -Hl. induction l as [|b l IH]; simpl; [lia|].
      pose proof (Hl b ltac:(left)).
      assert (0 ≤ foldr Z.add 0 l) by (apply IH; intros y Hy; apply Hl; by right).
      lia. }
    apply elem_of_cons in Hx as [->|Hx]; [lia|].
    specialize (IH Hl Hx). lia.
Qed.

Lemma positive_values s v : positive_counts s → v ∈ values s → 1 ≤ v.
Proof. intros Hs [k Hk]%elem_of_values. by eapply Hs. Qed.

(** X14. After any sequence of [add_document] and
    [add_documents_batch] calls on a new object, every stored count is
    at least 1, there are at most as many distinct key values as
    documents, and the distribution is empty exactly when
    [total_documents] is 0. *)
Theorem apply_updates_counts cn sk us :
  let s := apply_updates cn sk us in
  (∀ k v, distribution s !! k = Some v → 1 ≤ v)
  ∧ 0 ≤ unique_shards s ≤ total_documents s
  ∧ (total_documents s = 0 ↔ distribution s = ∅).
Proof.
  simpl.
  pose proof (positive_counts_apply_updates cn sk us) as Hpos.
  pose proof (counts_total_apply_updates cn sk us) as Hsum.
  set (s := apply_updates cn sk us) in *.
  split; [exact Hpos|].
  assert (Hle : unique_shards s ≤ total_documents s).
  { rewrite unique_shards_length, <- Hsum. unfold sum_counts. fold (values s).
    pose proof (sum_Z_bounds (values s) 1 (sum_Z (values s))) as [Hlo _]; [|lia].
    intros x Hx. split; [by eapply positive_values|].
    apply sum_Z_elem_le; [|done].
    intros y Hy. pose proof (positive_values s y Hpos Hy). lia. }
  split; [unfold unique_shards in *; lia|]. split.
  - intros H0. apply map_size_empty_iff. unfold unique_shards in Hle. lia.
  - intros Hempty. rewrite <- Hsum, Hempty. apply sum_counts_empty.
Qed.






End Counting.

(** * Further properties of the analyses *)

Section Analyses.
Import StatisticsCalculator.

Lemma range_nonpos n : n ≤ 0 → range n = [].
Proof. intros Hn. unfold range. by apply seqZ_nil. Qed.

Lemma resolved_count_cases c sample :
  (∀ m, sample = Some m → m ≠ 0 → resolved_count c sample = m)
  ∧ (sample = None ∨ sample = Some 0 →
     resolved_count c sample = document_count c).
Proof.
  unfold resolved_count, int_or. split.
  - intros m -> Hm. by rewrite bool_decide_eq_false_2.
  - by intros [->| ->].
Qed.

(** X17. With a sharding key of the collection and a generator, the
    generator is called once on each of 0, 1, ..., n-1, in this order,
    where n is the sample size when one is given and is not 0, and the
    document count of the collection otherwise; the object returned
    holds max(0, n) documents, and the count of a key value is the number
    of indices that the generator maps to it. *)
Theorem analyze_sharding_generator_calls c key g sample :
  is_Some (fields c !! key) →
  let n := resolved_count c sample in
  ∃ stats,
    run (analyze_sharding c key (Some g) sample) = (inr stats, seqZ 0 n)
    ∧ length (seqZ 0 n) = Z.to_nat n
    ∧ (∀ i, 0 ≤ i < n → seqZ 0 n !! Z.to_nat i = Some i)
    ∧ total_documents stats = Z.max 0 n
    ∧ (∀ k, default 0 (distribution stats !! k)
            = occurrences k (g <$> seqZ 0 n))
    ∧ (∀ m, sample = Some m → m ≠ 0 → n = m)
    ∧ (sample = None ∨ sample = Some 0 → n = document_count c).
Proof.
  intros Hkey n. eexists. split.
  { unfold run. rewrite analyze_sharding_generator by done. reflexivity. }
  fold n. split; [apply length_seqZ|]. split.
  { intros i Hi. rewrite lookup_seqZ_lt by lia. f_equal. lia. }
  split.
  { rewrite total_add_documents_batch. simpl.
    unfold range. rewrite length_fmap, length_seqZ. lia. }
  split.
  { intros k. rewrite count_add_documents_batch. simpl.
    by rewrite lookup_empty. }
  apply resolved_count_cases.
Qed.

Lemma analyze_sharding_generator_calls_witness :
  ∃ stats,
    run (analyze_sharding (users 5) "user_id" (Some (λ i, PInt (i `mod` 2)))
           (Some 3))
    = (inr stats, [0; 1; 2])
    ∧ total_documents stats = 3.
Proof.
  destruct (analyze_sharding_generator_calls (users 5) "user_id"
              (λ i, PInt (i `mod` 2)) (Some 3))
    as (stats & Hrun & _ & _ & Htotal & _).
  - vm_compute. eauto.
  - exists stats. split; [exact Hrun | exact Htotal].
Defined.

Lemma analyze_sharding_no_documents c key gen sample log :
  is_Some (fields c !! key) → resolved_count c sample ≤ 0 →
  analyze_sharding c key gen sample log
  = (inr (new_ShardingStatistics (c_name c) key), log).
Proof.
  intros Hkey Hn. destruct gen as [g|].
  - rewrite analyze_sharding_generator by done.
    rewrite range_nonpos by done. by rewrite app_nil_r.
  - rewrite analyze_sharding_default by done.
    by rewrite range_nonpos by done.
Qed.

(** X18. With a sharding key that is a field of the collection, when
    the number of documents to simulate is 0 or negative (a negative
    sample size, or no sample size and a collection whose document count
    is 0 or negative), [analyze_sharding] returns an object without
    documents, never calls the generator, and [get_statistics] on that
    object gives the short report. *)
Theorem analyze_sharding_nothing_to_simulate c key gen sample :
  is_Some (fields c !! key) → resolved_count c sample ≤ 0 →
  run (analyze_sharding c key gen sample)
  = (inr (new_ShardingStatistics (c_name c) key), [])
  ∧ get_statistics (new_ShardingStatistics (c_name c) key)
    = inr (EmptyReport (c_name c) key 0 0 "No documents in collection").
Proof.
  intros Hkey Hn. split; [|done].
  unfold run. by apply analyze_sharding_no_documents.
Qed.

Lemma analyze_sharding_nothing_to_simulate_witness :
  run (analyze_sharding (users 5) "user_id" (Some (λ i, PInt i)) (Some (-4)))
  = (inr (new_ShardingStatistics "users" "user_id"), []).
Proof.
  destruct (analyze_sharding_nothing_to_simulate (users 5) "user_id"
              (Some (λ i, PInt i)) (Some (-4))) as [Hrun _].
  - vm_compute. eauto.
  - vm_compute. discriminate.
  - exact Hrun.
Defined.

Lemma compare_loop_app c (gens : gmap string (Z → pyval)) pre rest :
  ∀ results log,
  compare_loop c gens (pre ++ rest) results log
  = match compare_loop c gens pre results log with
    | (inr results', log') => compare_loop c gens rest results' log'
    | (inl e, log') => (inl e, log')
    end.
Proof.
  induction pre as [|k pre IH]; intros results log; simpl; [done|].
  unfold bind.
  destruct (analyze_sharding c k (gens !! k) None log) as [[e|stats] log1];
    [done|].
  destruct (get_statistics stats) as [e|rep]; [done|].
  apply IH.
Qed.

(** X19. A sharding key that is not a field of the collection ends
    [compare_sharding_strategies] with the [ValueError] of that key: the
    reports of the keys before it are not returned, and the keys after
    it are not analysed (the generator calls are those of the keys
    before it). *)
Theorem compare_sharding_strategies_aborts c pre key post gens :
  Forall (λ k, is_Some (fields c !! k)) pre →
  fields c !! key = None →
  (run (compare_sharding_strategies c (pre ++ key :: post) gens)).1
  = inl (key_not_found key)
  ∧ (run (compare_sharding_strategies c (pre ++ key :: post) gens)).2
    = (run (compare_sharding_strategies c pre gens)).2.
Proof.
  intros Hpre Hkey. unfold run, compare_sharding_strategies.
  rewrite compare_loop_app.
  destruct (compare_loop_results c (default ∅ gens) pre Hpre [] [])
    as (reps & log' & Hloop & _).
  rewrite Hloop. simpl. unfold bind, analyze_sharding.
  rewrite bool_decide_eq_true_2 by done. done.
Qed.

Lemma compare_sharding_strategies_aborts_witness :
  (run (compare_sharding_strategies (add_documents 6 two_field_schema)
          ["name"; "email"; "_id"] None)).1
  = inl (key_not_found "email").
Proof.
  destruct (compare_sharding_strategies_aborts
              (add_documents 6 two_field_schema) ["name"] "email" ["_id"] None)
    as [Hres _].
  - repeat constructor. vm_compute. eauto.
  - vm_compute. reflexivity.
  - exact Hres.
Defined.

Lemma compare_loop_no_documents c (gens : gmap string (Z → pyval)) keys :
  document_count c ≤ 0 →
  Forall (λ k, is_Some (fields c !! k)) keys →
  ∀ results log,
  compare_loop c gens keys results log
  = (inr (results ++
          ((λ k, EmptyReport (c_name c) k 0 0 "No documents in collection")
             <$> keys)), log).
Proof.
  intros Hc. induction 1 as [|k keys Hk _ IH]; intros results log; simpl.
  - unfold ret. by rewrite app_nil_r.
  - unfold bind. rewrite analyze_sharding_no_documents by done.
    simpl. rewrite IH. by rewrite <- app_assoc.
Qed.

(** X20. On a collection whose document count is 0 (as after
    [load_schema] alone) or negative, and for a list of sharding keys
    that are all fields of the collection, [compare_sharding_strategies]
    calls no generator and returns, for every key of the list, the short
    report, which has no balance factor, deviation or distribution. *)
Theorem compare_sharding_strategies_no_documents c keys gens :
  document_count c ≤ 0 →
  Forall (λ k, is_Some (fields c !! k)) keys →
  run (compare_sharding_strategies c keys gens)
  = (inr ((λ k, EmptyReport (c_name c) k 0 0 "No documents in collection")
            <$> keys), []).
Proof.
  intros Hc Hkeys. unfold run, compare_sharding_strategies.
  by rewrite compare_loop_no_documents.
Qed.

Lemma compare_sharding_strategies_no_documents_witness :
  run (compare_sharding_strategies (new_Collection "events" sample_schema)
         ["tags"; "_id"] (Some {["_id" := λ i, PInt i]}))
  = (inr [EmptyReport "events" "tags" 0 0 "No documents in collection";
          EmptyReport "events" "_id" 0 0 "No documents in collection"], []).
Proof.
  apply (compare_sharding_strategies_no_documents
           (new_Collection "events" sample_schema) ["tags"; "_id"]).
  - vm_compute. discriminate.
  - repeat constructor; vm_compute; eauto.
Defined.

Lemma names_add_documents_batch ks s :
  collection_name (add_documents_batch ks s) = collection_name s
  ∧ sharding_key (add_documents_batch ks s) = sharding_key s.
Proof.
  unfold add_documents_batch. revert s.
  induction ks as [|k ks IH]; intros s; simpl; [done|].
  destruct (IH (add_document k s)) as [-> ->]. done.
Qed.

(** The distribution of the indices 0 .. n-1 over the labels
    [i mod b]. *)
Lemma round_robin_distribution (b n : Z) cn sk :
  0 < b ≤ n →
  let stats := add_documents_batch ((λ i, PInt (i `mod` b)) <$> range n)
                 (new_ShardingStatistics cn sk) in
  (∀ j, 0 ≤ j < b →
     distribution stats !! PInt j
     = Some (n `div` b + (if bool_decide (j < n `mod` b) then 1 else 0)))
  ∧ (∀ k v, distribution stats !! k = Some v → ∃ j, k = PInt j ∧ 0 ≤ j < b)
  ∧ unique_shards stats = b.
Proof.
  intros Hb. simpl.
  set (ks := (λ i, PInt (i `mod` b)) <$> range n).
  set (stats := add_documents_batch ks _).
  assert (Hq : 1 ≤ n `div` b) by (apply Z.div_le_lower_bound; lia).
  assert (Hocc : ∀ j, 0 ≤ j < b →
            occurrences (PInt j) ks
            = n `div` b + (if bool_decide (j < n `mod` b) then 1 else 0)).
  { intros j Hj. unfold ks.
    rewrite <- (Z2Nat.id n) by lia. by apply occurrences_round_robin; lia. }
  assert (Hin : ∀ k, k ∈ ks ↔ ∃ j, k = PInt j ∧ 0 ≤ j < b).
  { intros k. split.
    - unfold ks. intros (i & -> & Hi)%list_elem_of_fmap.
      exists (i `mod` b). split; [done|]. apply Z.mod_pos_bound. lia.
    - intros (j & -> & Hj). apply occurrences_pos. rewrite Hocc by done.
      case_bool_decide; lia. }
  assert (Hdom : ∀ k, is_Some (distribution stats !! k)
                      ↔ ∃ j, k = PInt j ∧ 0 ≤ j < b).
  { intros k. unfold stats. rewrite is_Some_add_documents_batch. simpl.
    rewrite lookup_empty, <- Hin. split; [intros [[? [=]]|?]; done | eauto]. }
  split; [|split].
  - intros j Hj.
    destruct (proj2 (Hdom (PInt j))) as [v Hv]; [eauto|].
    rewrite Hv. f_equal.
    apply lookup_fresh_batch in Hv as [-> _]. by apply Hocc.
  - intros k v Hk. apply Hdom. eauto.
  - unfold unique_shards. rewrite <- size_dom.
    assert (Hset : dom (distribution stats)
                   = list_to_set (PInt <$> seqZ 0 b) :> gset pyval).
    { apply set_eq. intros k. rewrite elem_of_dom, Hdom, elem_of_list_to_set.
      rewrite list_elem_of_fmap. setoid_rewrite elem_of_seqZ.
      split; intros (j & ? & ?); exists j; split; (done || lia). }
    rewrite Hset, size_list_to_set.
    + rewrite length_fmap, length_seqZ. lia.
    + apply NoDup_fmap_2; [intros ?? [=]; done | apply NoDup_seqZ].
Qed.

Lemma py_round_IZR (z : Z) (n : nat) : py_round (IZR z) n = IZR z.
Proof.
  unfold py_round.
  replace (IZR z * 10 ^ n)%R with (IZR (z * 10 ^ Z.of_nat n)).
  - rewrite round_half_even_IZR, mult_IZR, <- pow_IZR.
    field. apply Rgt_not_eq, pow10_pos.
  - by rewrite mult_IZR, <- pow_IZR.
Qed.

(** X21. With a sharding key that is a field of the collection, the
    generator [i -> i mod m] over a number of documents that is a
    positive multiple m * q of m gives m key values with q documents
    each, and a report with minimum, maximum and average q and with
    deviation, variance and balance factor 0. *)
Theorem analyze_sharding_modulo_generator c key sample (m q : Z) :
  is_Some (fields c !! key) → 0 < m → 0 < q →
  resolved_count c sample = m * q →
  ∃ stats,
    (run (analyze_sharding c key (Some (λ i, PInt (i `mod` m))) sample)).1
    = inr stats
    ∧ (∀ k v, distribution stats !! k = Some v →
         v = q ∧ ∃ j, k = PInt j ∧ 0 ≤ j < m)
    ∧ (∀ j, 0 ≤ j < m → distribution stats !! PInt j = Some q)
    ∧ get_statistics stats
      = inr (FullReport (c_name c) key (m * q) m q q (IZR q) 0 0 0
               (distribution stats)).
Proof.
  intros Hkey Hm Hq Hn. eexists. split.
  { unfold run. rewrite analyze_sharding_generator by done. reflexivity. }
  rewrite Hn.
  set (stats := add_documents_batch _ _).
  assert (Hb : 0 < m ≤ m * q) by nia.
  destruct (round_robin_distribution m (m * q) (c_name c) key Hb)
    as (Hlook & Hkeys & Huniq).
  fold stats in Hlook, Hkeys, Huniq.
  assert (Hdiv : (m * q) `div` m = q) by (rewrite Z.mul_comm; apply Z.div_mul; lia).
  assert (Hmod : (m * q) `mod` m = 0) by (rewrite Z.mul_comm; apply Z.mod_mul; lia).
  assert (Hlook' : ∀ j, 0 ≤ j < m → distribution stats !! PInt j = Some q).
  { intros j Hj. rewrite Hlook by done. rewrite Hdiv, Hmod.
    rewrite bool_decide_eq_false_2 by lia. f_equal. lia. }
  assert (Hall : ∀ k v, distribution stats !! k = Some v →
            v = q ∧ ∃ j, k = PInt j ∧ 0 ≤ j < m).
  { intros k v Hk. destruct (Hkeys k v Hk) as (j & -> & Hj).
    rewrite Hlook' in Hk by done. injection Hk as <-. eauto. }
  split; [exact Hall|]. split; [exact Hlook'|].
  assert (Hinv : counts_total stats).
  { apply counts_total_add_documents_batch, counts_total_new. }
  assert (Htot : total_documents stats = m * q).
  { unfold stats. rewrite total_add_documents_batch. simpl.
    unfold range. rewrite length_fmap, length_seqZ. nia. }
  assert (Hpos : 0 < total_documents stats) by nia.
  assert (Hid : identical_counts (distribution stats)).
  { intros k1 k2 v1 v2 H1 H2.
    destruct (Hall _ _ H1) as [-> _]. by destruct (Hall _ _ H2) as [-> _]. }
  destruct (nonempty_values stats Hinv Hpos) as (Hv & Hu & _).
  assert (Hvals : ∀ v, v ∈ values stats → v = q).
  { intros v [k Hk]%elem_of_values. by destruct (Hall _ _ Hk). }
  destruct (list_min_spec _ Hv) as [Hmin _].
  destruct (list_max_spec _ Hv) as [Hmax _].
  rewrite get_statistics_full by done.
  rewrite (Hvals _ Hmin), (Hvals _ Hmax), Htot, Huniq.
  rewrite <- (avg_docs_identical stats _ Hinv Hpos Hid Hmin), (Hvals _ Hmin).
  rewrite (proj2 (balance_factor_zero_iff stats Hinv Hpos) Hid).
  rewrite (proj2 (variance_zero_iff stats Hinv Hpos) Hid).
  rewrite (proj2 (std_dev_zero_iff stats Hu)
             (proj2 (variance_zero_iff stats Hinv Hpos) Hid)).
  rewrite !py_round_0, py_round_IZR.
  unfold stats.
  destruct (names_add_documents_batch
              ((λ i, PInt (i `mod` m)) <$> range (m * q))
              (new_ShardingStatistics (c_name c) key)) as [-> ->].
  done.
Qed.

Lemma analyze_sharding_modulo_generator_witness :
  ∃ stats,
    (run (analyze_sharding (users 100) "user_id"
            (Some (λ i, PInt (i `mod` 5))) (Some 100))).1 = inr stats
    ∧ get_statistics stats
      = inr (FullReport "users" "user_id" 100 5 20 20 20 0 0 0
               (distribution stats)).
Proof.
  destruct (analyze_sharding_modulo_generator (users 100) "user_id"
              (Some 100) 5 20) as (stats & Hrun & _ & _ & Hrep).
  - vm_compute. eauto.
  - lia.
  - lia.
  - vm_compute. reflexivity.
  - exists stats. split; [exact Hrun | exact Hrep].
Defined.

(** X22. With a sharding key that is a field of the collection,
    without a generator and with a positive number n of documents,
    the counts are all the same exactly when the number of buckets
    min(10, max(1, n // 100)) divides n; below 200 documents there is
    one bucket, labelled 0, which holds them all. *)
Theorem analyze_sharding_default_balanced c key sample :
  is_Some (fields c !! key) →
  0 < resolved_count c sample →
  let n := resolved_count c sample in
  let b := Z.min 10 (Z.max 1 (n `div` 100)) in
  ∃ stats,
    run (analyze_sharding c key None sample) = (inr stats, [])
    ∧ (identical_counts (distribution stats) ↔ n `mod` b = 0)
    ∧ (n < 200 → distribution stats = {[PInt 0 := n]}).
Proof.
  intros Hkey Hn n b.
  destruct (shard_count_bounds n Hn) as [Hb Hq]. fold b in Hb, Hq.
  eexists. split; [unfold run; by apply analyze_sharding_default|].
  fold n b.
  destruct (round_robin_distribution b n (c_name c) key Hb)
    as (Hlook & Hkeys & Huniq).
  set (stats := add_documents_batch _ _) in *.
  pose proof (Z.mod_pos_bound n b ltac:(lia)) as Hmod.
  split; [split|].
  - intros Hid.
    destruct (decide (n `mod` b = 0)) as [|Hne]; [done|]. exfalso.
    pose proof (Hlook 0 ltac:(lia)) as H0.
    pose proof (Hlook (b - 1) ltac:(lia)) as H1.
    rewrite bool_decide_eq_true_2 in H0 by lia.
    rewrite bool_decide_eq_false_2 in H1 by lia.
    pose proof (Hid _ _ _ _ H0 H1). lia.
  - intros H0 k1 k2 v1 v2 H1 H2.
    destruct (Hkeys _ _ H1) as (j1 & -> & Hj1).
    destruct (Hkeys _ _ H2) as (j2 & -> & Hj2).
    rewrite Hlook in H1, H2 by done.
    rewrite bool_decide_eq_false_2 in H1, H2 by lia. congruence.
  - intros Hsmall.
    assert (Hd : n `div` 100 ≤ 1).
    { apply Z.lt_succ_r. apply Z.div_lt_upper_bound; lia. }
    assert (Hb1 : b = 1) by (unfold b; lia).
    apply map_eq. intros k.
    destruct (decide (k = PInt 0)) as [->|Hk].
    + rewrite lookup_singleton_eq, Hlook by lia.
      rewrite Hb1, Z.div_1_r, Z.mod_1_r.
      rewrite bool_decide_eq_false_2 by lia. f_equal. lia.
    + rewrite lookup_singleton_ne by done.
      destruct (distribution stats !! k) as [v|] eqn:Hv; [|done].
      destruct (Hkeys _ _ Hv) as (j & -> & Hj).
      exfalso. apply Hk. f_equal. lia.
Qed.

Lemma analyze_sharding_default_balanced_witness :
  ∃ stats,
    run (analyze_sharding (users 150) "user_id" None None) = (inr stats, [])
    ∧ distribution stats = {[PInt 0 := 150]}.
Proof.
  destruct (analyze_sharding_default_balanced (users 150) "user_id" None)
    as (stats & Hrun & _ & Hsmall).
  - vm_compute. eauto.
  - vm_compute. reflexivity.
  - exists stats. split; [exact Hrun|]. apply Hsmall. vm_compute. reflexivity.
Defined.

Lemma compare_loop_generators c (gens gens' : gmap string (Z → pyval)) keys :
  (∀ k, k ∈ keys → gens !! k = gens' !! k) →
  ∀ results log,
  compare_loop c gens keys results log = compare_loop c gens' keys results log.
Proof.
  induction keys as [|k keys IH]; intros Hg results log; simpl; [done|].
  unfold bind. rewrite (Hg k) by left.
  destruct (analyze_sharding c k (gens' !! k) None log) as [[e|stats] log1];
    [done|].
  destruct (get_statistics stats) as [e|rep]; [done|].
  apply IH. intros k' Hk'. apply Hg. by right.
Qed.

(** X23. Only the generators registered under the listed keys matter
    to [compare_sharding_strategies]: two generator dicts that agree on
    the keys of the list give the same reports and the same generator
    calls, and passing no dict is the same as passing an empty one. *)
Theorem compare_sharding_strategies_generators c keys
    (gens gens' : gmap string (Z → pyval)) :
  (∀ k, k ∈ keys → gens !! k = gens' !! k) →
  run (compare_sharding_strategies c keys (Some gens))
  = run (compare_sharding_strategies c keys (Some gens'))
  ∧ run (compare_sharding_strategies c keys None)
    = run (compare_sharding_strategies c keys (Some ∅)).
Proof.
  intros Hg. split; [|done].
  unfold run, compare_sharding_strategies. simpl.
  by apply compare_loop_generators.
Qed.

Lemma compare_sharding_strategies_generators_witness :
  run (compare_sharding_strategies (users 4) ["user_id"]
         (Some {["user_id" := λ i, PInt (i `mod` 2); "email" := λ i, PInt i]}))
  = run (compare_sharding_strategies (users 4) ["user_id"]
           (Some {["user_id" := λ i, PInt (i `mod` 2)]})).
Proof.
  apply (compare_sharding_strategies_generators (users 4) ["user_id"]).
  intros k ->%list_elem_of_singleton. reflexivity.
Defined.

End Analyses.

Section FieldSizes.
Import SizeCalculator.

(** X24. Length constraints are read for strings only and the [items]
    descriptor for arrays only: a field of any other type has the size
    that the table gives for its type (50 for a type that is not in the
    table), whatever constraints and items it declares. *)
Theorem field_size_other_types name (t : string) constraints items :
  t ≠ "string" → t ≠ "array" →
  field_size (new_Field name (PStr t) constraints items)
  = default 50 (TYPE_SIZES !! t).
Proof.
  intros Hs Ha. unfold field_size. simpl.
  rewrite (bool_decide_eq_false_2 (PStr t = PStr "array")) by congruence.
  simpl. rewrite get_type_size_not_string by congruence. simpl.
  case_bool_decide as Ho; [|done].
  injection Ho as ->. reflexivity.
Qed.

Lemma field_size_other_types_witness :
  field_size (new_Field "age" (PStr "integer") {["maxLength" := 99]}
                (Some {["type" := PStr "string"]}))
  = 4.
Proof.
  apply (field_size_other_types "age" "integer"); discriminate.
Defined.

End FieldSizes.
